(** * optimize_images.py: a model of the WebP batch optimiser

    The development embeds [src/optimize_images.py] shallowly:

    - Python's [float] arithmetic, as far as the script uses it (a true
      division of two [int]s, a product [int * float] and the truncation
      [int(...)]), is modelled on dyadic numbers with the IEEE-754 binary64
      rounding written out ([Float64]);
    - [pathlib]'s [suffix], [with_suffix] and [str.endswith]/[str.lower] are
      functions on [string];
    - Pillow is an external collaborator: decoding, mode conversion,
      resampling and encoding are the fields of a [Codec]; [Image.new],
      [split] and [paste] are written out on rasters, and [Image.save]
      opens its output before it runs the encoder;
    - the photo directory, the clock and the console form the [world] that
      [optimize_image] and [main] thread through a state-and-exception
      monad. *)

From Stdlib Require Import ZArith Lia List Bool String Ascii.
From Stdlib Require Import Permutation Sorted Mergesort Orders.
From Stdlib Require Import Floats.SpecFloat.
Import ListNotations.

Local Open Scope string_scope.
Local Open Scope Z_scope.

(** ** Binary64 arithmetic *)

Module Float64.

(** A Python [float]: a finite dyadic [mant * 2^expn], an infinity
    ([float * float] overflows to one silently) or a NaN. *)
Inductive float :=
| Finite (mant expn : Z)
| Inf (negative : bool)
| NaN.

Definition prec : Z := 53.
Definition emax : Z := 1024.
(** Exponent of the least significant bit of a subnormal number. *)
Definition emin : Z := -1074.

Definition pow2 (e : Z) : Z := 2 ^ e.

(** [floor (log2 (n / d))] for [0 < n] and [0 < d]. *)
Definition ilog2_ratio (n d : Z) : Z :=
  let k := Z.log2 n - Z.log2 d in
  if d * pow2 (Z.max 0 k) <=? n * pow2 (Z.max 0 (- k)) then k else k - 1.

(** Nearest integer to [num / den], ties to even ([0 <= num], [0 < den]). *)
Definition rne (num den : Z) : Z :=
  let q := num / den in
  match 2 * (num mod den) ?= den with
  | Lt => q
  | Gt => q + 1
  | Eq => if Z.even q then q else q + 1
  end.

(** Round-to-nearest-even of the positive rational [n / d] to a 53-bit
    significand; below [2^-1022] the exponent stays at [emin] (gradual
    underflow). *)
Definition round_pos (n d : Z) : Z * Z :=
  let e := Z.max (ilog2_ratio n d - (prec - 1)) emin in
  (rne (n * pow2 (Z.max 0 (- e))) (d * pow2 (Z.max 0 e)), e).

(** Has the rounded magnitude left the finite range ([>= 2^1024])? *)
Definition overflows (me : Z * Z) : bool :=
  let '(m, e) := me in
  (emax - prec <? e) || ((e =? emax - prec) && (pow2 prec <=? m)).

(** Correct rounding of the rational [n / d], [0 < d]. *)
Definition round (n d : Z) : float :=
  match n ?= 0 with
  | Eq => Finite 0 0
  | Gt => let me := round_pos n d in
          if overflows me then Inf false else Finite (fst me) (snd me)
  | Lt => let me := round_pos (- n) d in
          if overflows me then Inf true else Finite (- fst me) (snd me)
  end.

(** The exceptions of the arithmetic, with their messages. *)
Inductive arith_error :=
| ZeroDivisionError
| OverflowError (msg : string)
| ValueError (msg : string).

(** [a / b] on two [int]s: the correctly rounded quotient;
    [ZeroDivisionError] for [b = 0], [OverflowError] when the quotient is
    too large for a float. *)
Definition truediv (a b : Z) : arith_error + float :=
  if b =? 0 then inl ZeroDivisionError
  else match round (a * Z.sgn b) (Z.abs b) with
       | Inf _ => inl (OverflowError "integer division result too large for a float")
       | x => inr x
       end.

(** [float(h)]: [OverflowError] when [h] is too large. *)
Definition of_int (h : Z) : arith_error + float :=
  match round h 1 with
  | Inf _ => inl (OverflowError "int too large to convert to float")
  | x => inr x
  end.

(** [x * y] on two floats: the correctly rounded product; an infinity times
    zero is a NaN. *)
Definition mul (x y : float) : float :=
  match x, y with
  | Finite mx ex, Finite my ey =>
      let e := ex + ey in
      round (mx * my * pow2 (Z.max 0 e)) (pow2 (Z.max 0 (- e)))
  | Inf sx, Finite my _ => if my =? 0 then NaN else Inf (xorb sx (my <? 0))
  | Finite mx _, Inf sy => if mx =? 0 then NaN else Inf (xorb (mx <? 0) sy)
  | Inf sx, Inf sy => Inf (xorb sx sy)
  | NaN, _ | _, NaN => NaN
  end.

(** [h * x] with [h] an [int]: Python converts [h] first. *)
Definition int_mul (h : Z) (x : float) : arith_error + float :=
  match of_int h with
  | inl err => inl err
  | inr fh => inr (mul fh x)
  end.

(** [int(x)]: truncation toward zero; [OverflowError] on an infinity,
    [ValueError] on a NaN. *)
Definition to_int (x : float) : arith_error + Z :=
  match x with
  | Finite m e => inr (if 0 <=? e then m * pow2 e else Z.quot m (pow2 (- e)))
  | Inf _ => inl (OverflowError "cannot convert float infinity to integer")
  | NaN => inl (ValueError "cannot convert float NaN to integer")
  end.

(** The same operations on the Standard Library's reference
    implementation of IEEE-754, used to cross-check [round]. *)
Definition sf_of_int (h : Z) : spec_float := binary_normalize prec emax h 0 false.
Definition sf_truediv (a b : Z) : spec_float :=
  SFdiv prec emax (sf_of_int a) (sf_of_int b).
Definition sf_int_mul (h : Z) (x : spec_float) : spec_float :=
  SFmul prec emax (sf_of_int h) x.

(** Value equality between a [float] and a [spec_float]. *)
Definition agrees (x : float) (y : spec_float) : bool :=
  match x, y with
  | Finite 0 _, S754_zero _ => true
  | Finite m e, S754_finite s m' e' =>
      let m'' := if s then Z.neg m' else Z.pos m' in
      let c := Z.min e e' in
      m * pow2 (e - c) =? m'' * pow2 (e' - c)
  | Inf s, S754_infinity s' => Bool.eqb s s'
  | NaN, S754_nan => true
  | _, _ => false
  end.

(** Do [truediv a b], and [int_mul h] of it, agree with the reference?
    (The reference converts its operands first, so they are to be
    floats.) *)
Definition truediv_agrees (ab : Z * Z) : bool :=
  match truediv (fst ab) (snd ab) with
  | inr x => agrees x (sf_truediv (fst ab) (snd ab))
  | inl _ => false
  end.

Definition int_mul_agrees (hab : Z * Z * Z) : bool :=
  let '(h, a, b) := hab in
  match truediv a b with
  | inr x =>
      match int_mul h x with
      | inr y => agrees y (sf_int_mul h (sf_truediv a b))
      | inl _ => false
      end
  | inl _ => false
  end.

End Float64.

(** ** Strings and paths *)

(** [str.lower] on the ASCII range (the only letters that can lower to the
    characters of [.jpg], [.jpeg] and [.png]). *)
Definition lower_ascii (c : ascii) : ascii :=
  let n := N_of_ascii c in
  if (N.leb 65 n && N.leb n 90)%bool then ascii_of_N (n + 32) else c.

Fixpoint lower (s : string) : string :=
  match s with
  | EmptyString => EmptyString
  | String c s' => String (lower_ascii c) (lower s')
  end.

(** [s.rfind(c)]: index of the last occurrence, [-1] when there is none. *)
Fixpoint rfind (c : ascii) (s : string) : Z :=
  match s with
  | EmptyString => -1
  | String a s' =>
      let i := rfind c s' in
      if 0 <=? i then i + 1 else if Ascii.eqb a c then 0 else -1
  end.

Definition len (s : string) : Z := Z.of_nat (String.length s).

(** [s[i:]] and [s[:i]] for [0 <= i]. *)
Definition slice_from (i : Z) (s : string) : string :=
  substring (Z.to_nat i) (String.length s - Z.to_nat i) s.
Definition slice_to (i : Z) (s : string) : string :=
  substring 0 (Z.to_nat i) s.

(** [PurePath.suffix] of a path whose final component is [name]:
    [i = name.rfind('.')], and [name[i:]] if [0 < i < len(name) - 1]. *)
Definition suffix (name : string) : string :=
  let i := rfind "."%char name in
  if ((0 <? i) && (i <? len name - 1))%bool then slice_from i name else "".

(** [PurePath.with_suffix] on the final component. *)
Definition with_suffix (name sfx : string) : string :=
  let old_suffix := suffix name in
  if (old_suffix =? "")%string then (name ++ sfx)%string
  else (slice_to (len name - len old_suffix) name ++ sfx)%string.

(** [s.endswith(sfx)]. *)
Definition endswith (s sfx : string) : bool :=
  ((len sfx <=? len s) && (slice_from (len s - len sfx) s =? sfx)%string)%bool.

(** [x in (a, b, ...)] on strings. *)
Definition mem_string (x : string) (l : list string) : bool :=
  existsb (String.eqb x) l.

Definition image_extensions : list string :=
  [".jpg"; ".jpeg"; ".JPG"; ".JPEG"; ".png"; ".PNG"].

(** The filter of the list comprehension of [main]. *)
Definition is_image_file (name : string) : bool :=
  (mem_string (lower (suffix name)) image_extensions
   && negb (endswith name ".webp"))%bool.

(** The same filter without its second conjunct. *)
Definition has_image_extension (name : string) : bool :=
  mem_string (lower (suffix name)) image_extensions.

(** [sorted]: paths of one directory compare as their names do, character by
    character; Python's sort is a stable merge sort. *)
Module PathOrder <: TotalLeBool.
Definition t := string.
Definition leb := String.leb.
Definition leb_total : forall a1 a2, is_true (leb a1 a2) \/ is_true (leb a2 a1) :=
  String.leb_total.
End PathOrder.

Module PathSort := Sort PathOrder.

Definition sorted (l : list string) : list string := PathSort.sort l.

(** ** Images and the codec library *)

(** What a library call yields: a value, or a raised error with the name of
    its exception class and its message.  Every error of the library is an
    [Exception] (Pillow raises [OSError], [ValueError] and their like). *)
Inductive result (A : Type) :=
| Ok (a : A)
| Fail (kind msg : string).
Arguments Ok {A} a.
Arguments Fail {A} kind msg.

Definition result_bind {A B} (r : result A) (k : A -> result B) : result B :=
  match r with
  | Ok a => k a
  | Fail kind msg => Fail kind msg
  end.

(** A decoded raster: [img.mode], [img.width], [img.height] and
    [img.getpixel((x, y))], the tuple of band values of a pixel. *)
Record image := {
  mode : string;
  width : Z;
  height : Z;
  getpixel : Z -> Z -> list Z
}.

Definition size (img : image) : Z * Z := (width img, height img).

(** The codec primitives the script calls into: [Image.open] (with the
    decoding it triggers), the pixel data of [Image.convert] and of
    [Image.resize] with the Lanczos filter, and the WebP encoder of
    [Image.save]. *)
Class Codec := {
  decode : list Byte.byte -> result image;
  convert_data : string -> image -> result (Z -> Z -> list Z);
  resample : image -> Z -> Z -> result (Z -> Z -> list Z);
  encode_webp : image -> Z -> Z -> result (list Byte.byte)
}.

(** [Image.new(mode, size, color)]. *)
Definition Image_new (m : string) (sz : Z * Z) (color : list Z) : image :=
  {| mode := m; width := fst sz; height := snd sz; getpixel := fun _ _ => color |}.

(** [img.split()[-1]]: the last band, as a greyscale image. *)
Definition last_band (img : image) : image :=
  {| mode := "L"; width := width img; height := height img;
     getpixel := fun x y => [last (getpixel img x y) 0] |}.

(** Pillow's 8-bit blend ([MULDIV255] and [BLEND8]). *)
Definition muldiv255 (a b : Z) : Z :=
  let t := a * b + 128 in Z.shiftr (Z.shiftr t 8 + t) 8.

Definition blend8 (mask in1 in2 : Z) : Z :=
  muldiv255 in1 (255 - mask) + muldiv255 in2 mask.

(** The three colour bytes Pillow keeps for a pixel of a source that is
    pasted into an RGB image: [LA] is stored as [(L, L, L, A)]. *)
Definition rgb_bytes (m : string) (px : list Z) : list Z :=
  if (m =? "LA")%string then let l := nth 0 px 0 in [l; l; l]
  else [nth 0 px 0; nth 1 px 0; nth 2 px 0].

Fixpoint blend_bands (a : Z) (dst src : list Z) : list Z :=
  match dst, src with
  | d :: dst', s :: src' => blend8 a d s :: blend_bands a dst' src'
  | _, _ => []
  end.

(** Is [(x, y)] a pixel of [img]? *)
Definition inside (img : image) (x y : Z) : bool :=
  ((0 <=? x) && (x <? width img) && (0 <=? y) && (y <? height img))%bool.

(** [src] composited over an opaque white background of its size, its last
    band being its alpha. *)
Definition over_white (src : image) : image :=
  {| mode := "RGB"; width := width src; height := height src;
     getpixel := fun x y =>
       if inside src x y then
         blend_bands (last (getpixel src x y) 0) [255; 255; 255]
                     (rgb_bytes (mode src) (getpixel src x y))
       else [255; 255; 255] |}.

(** Pillow's modes with an alpha band, and its palette modes. *)
Definition mode_has_alpha (m : string) : bool :=
  mem_string m ["RGBA"; "LA"; "PA"; "RGBa"; "La"].
Definition mode_is_palette (m : string) : bool :=
  mem_string m ["P"; "PA"].

Section Library.
Context {codec : Codec}.

(** [img.convert(m)]: same size, mode [m]. *)
Definition convert (m : string) (img : image) : result image :=
  result_bind (convert_data m img) (fun px =>
  Ok {| mode := m; width := width img; height := height img; getpixel := px |}).

(** [img.resize((w, h), LANCZOS)]: same mode, the requested size. *)
Definition resize (img : image) (sz : Z * Z) : result image :=
  result_bind (resample img (fst sz) (snd sz)) (fun px =>
  Ok {| mode := mode img; width := fst sz; height := snd sz; getpixel := px |}).

(** [dst.paste(src, mask=mask)] with no box: the region is the source's,
    at the origin.  A source of another mode is converted first, unless
    the destination is RGB and the source is LA, RGBA or RGBa; a mask of
    another size is refused. *)
Definition paste (dst src : image) (mask : option image) : result image :=
  result_bind
    (if (mode dst =? mode src)%string then Ok src
     else if ((mode dst =? "RGB")%string
              && mem_string (mode src) ["LA"; "RGBA"; "RGBa"])%bool then Ok src
     else convert (mode dst) src) (fun src' =>
  match mask with
  | None =>
      Ok {| mode := mode dst; width := width dst; height := height dst;
            getpixel := fun x y =>
              if inside src' x y then rgb_bytes (mode src') (getpixel src' x y)
              else getpixel dst x y |}
  | Some msk =>
      if ((width msk =? width src') && (height msk =? height src'))%bool then
        Ok {| mode := mode dst; width := width dst; height := height dst;
              getpixel := fun x y =>
                if inside src' x y then
                  blend_bands (nth 0 (getpixel msk x y) 0) (getpixel dst x y)
                              (rgb_bytes (mode src') (getpixel src' x y))
                else getpixel dst x y |}
      else Fail "ValueError" "images do not match"
  end).

(** Lines 28-36 of [optimize_image]: colour normalisation. *)
Definition normalize (img : image) : result image :=
  if mem_string (mode img) ["RGBA"; "LA"; "P"] then
    let rgb_img := Image_new "RGB" (size img) [255; 255; 255] in
    result_bind
      (if (mode img =? "P")%string then convert "RGBA" img else Ok img) (fun img =>
    result_bind
      (paste rgb_img img
         (if mem_string (mode img) ["RGBA"; "LA"] then Some (last_band img)
          else None)) (fun rgb_img =>
    Ok rgb_img))
  else if negb (mode img =? "RGB")%string then convert "RGB" img
  else Ok img.

End Library.

(** ** The world: directory, clock, console, exceptions *)

(** A file of the photo directory: its bytes and [stat().st_mtime] (a
    timestamp; only its order matters). *)
Record file := {
  contents : list Byte.byte;
  st_mtime : Z
}.

(** The entries of [dist/assets/PHOTOS], in the order [iterdir] yields
    them. *)
Definition directory := list (string * file).

Fixpoint lookup (name : string) (d : directory) : option file :=
  match d with
  | [] => None
  | (n, f) :: d' => if (n =? name)%string then Some f else lookup name d'
  end.

(** Writing a file replaces the entry of that name or adds one. *)
Fixpoint write (name : string) (f : file) (d : directory) : directory :=
  match d with
  | [] => [(name, f)]
  | (n, g) :: d' =>
      if (n =? name)%string then (n, f) :: d' else (n, g) :: write name f d'
  end.

(** The lines the script prints, with the values they show. *)
Inductive event :=
| DirNotFound                                       (* line 68 *)
| NoImagesFound                                     (* line 77 *)
| Found (n : Z)                                     (* lines 80-81 *)
| Skipping (name : string)                          (* line 93 *)
| Processing (name : string)                        (* line 97 *)
| Resized (name : string) (from to : Z * Z)         (* line 44 *)
| NoResize (name : string) (sz : Z * Z)             (* line 46 *)
| Created (name : string)                           (* line 56 *)
| Sizes (original_bytes webp_bytes : Z)             (* line 57 *)
| Error (name msg : string)                         (* line 61 *)
| Summary (optimized_count skipped_count : Z).      (* lines 101-105 *)

Record world := {
  photos : option directory;   (* [None]: the directory does not exist *)
  clock : Z;                   (* the time a file written now is stamped with *)
  console : list event         (* standard output, oldest line first *)
}.

(** Python exceptions: the ones [except Exception] catches carry the name of
    their class and their message; the others ([KeyboardInterrupt],
    [SystemExit]) derive from [BaseException] only. *)
Inductive exn :=
| Exception (kind msg : string)
| BaseException (kind : string).

Inductive outcome (A : Type) :=
| Returned (a : A)
| Raised (e : exn).
Arguments Returned {A} a.
Arguments Raised {A} e.

Definition M (A : Type) : Type := world -> world * outcome A.

Definition ret {A} (a : A) : M A := fun w => (w, Returned a).

Definition bind {A B} (c : M A) (k : A -> M B) : M B :=
  fun w => match c w with
           | (w', Returned a) => k a w'
           | (w', Raised e) => (w', Raised e)
           end.

Definition raise {A} (e : exn) : M A := fun w => (w, Raised e).

(** [try: body / except Exception as e: handler e]. *)
Definition try_except {A} (body : M A) (handler : string -> string -> M A) : M A :=
  fun w => match body w with
           | (w', Raised (Exception kind msg)) => handler kind msg w'
           | r => r
           end.

Notation "x <- c ;; k" := (bind c (fun x => k))
  (at level 61, c at next level, right associativity).
Notation "c ;;; k" := (bind c (fun _ => k))
  (at level 61, right associativity).

Definition lift {A} (r : result A) : M A :=
  match r with
  | Ok a => ret a
  | Fail kind msg => raise (Exception kind msg)
  end.

Definition arith_exn (err : Float64.arith_error) : exn :=
  match err with
  | Float64.ZeroDivisionError => Exception "ZeroDivisionError" "division by zero"
  | Float64.OverflowError msg => Exception "OverflowError" msg
  | Float64.ValueError msg => Exception "ValueError" msg
  end.

Definition lift_arith {A} (r : Float64.arith_error + A) : M A :=
  match r with
  | inr a => ret a
  | inl err => raise (arith_exn err)
  end.

(** The world after one more line on the console. *)
Definition log (e : event) (w : world) : world :=
  {| photos := photos w; clock := clock w; console := console w ++ [e] |}.

(** The world after several more lines. *)
Definition logged (evs : list event) (w : world) : world :=
  {| photos := photos w; clock := clock w; console := console w ++ evs |}.

Definition print (e : event) : M unit := fun w => (log e w, Returned tt).

Definition find_file (name : string) (w : world) : option file :=
  match photos w with
  | None => None
  | Some d => lookup name d
  end.

(** Reading a file that is not there raises [FileNotFoundError]. *)
Definition read_file (name : string) : M file :=
  fun w => match find_file name w with
           | Some f => (w, Returned f)
           | None => (w, Raised (Exception "FileNotFoundError" name))
           end.

(** [path.exists()]. *)
Definition path_exists (name : string) : M bool :=
  fun w => (w, Returned (match find_file name w with Some _ => true | None => false end)).

(** [path.stat().st_mtime]. *)
Definition stat_mtime (name : string) : M Z :=
  f <- read_file name ;; ret (st_mtime f).

(** [os.path.getsize(path)]. *)
Definition getsize (name : string) : M Z :=
  f <- read_file name ;; ret (Z.of_nat (List.length (contents f))).

(** Creating or replacing a file stamps it with the clock, which then
    advances. *)
Definition saved (name : string) (data : list Byte.byte) (d : directory) (w : world)
  : world :=
  {| photos := Some (write name {| contents := data; st_mtime := clock w |} d);
     clock := clock w + 1;
     console := console w |}.

(** A file opened for writing and closed again without a byte written,
    then removed if the opening had created it: a file that was there is
    left empty, with a new stamp; otherwise nothing has changed. *)
Definition spoiled (name : string) (d : directory) (w : world) : world :=
  match lookup name d with
  | Some _ => saved name [] d w
  | None => w
  end.

(** ** The script *)

Section Script.
Context {codec : Codec}.

(** [Image.open(path)]. *)
Definition Image_open (path : string) : M image :=
  f <- read_file path ;; lift (decode (contents f)).

(** [img.save(path, 'WEBP', quality=quality, method=6)].  Pillow notes
    whether the file exists, opens it for writing (mode [w+b], which
    creates it or empties it) and only then runs the encoder.  When the
    encoder fails, Pillow removes the file if it had created it; a file
    that was there before stays, empty and stamped anew. *)
Definition Image_save (img : image) (path : string) (quality : Z) : M unit :=
  fun w => match photos w with
           | None => (w, Raised (Exception "FileNotFoundError" path))
           | Some d =>
               match encode_webp img quality 6 with
               | Ok data => (saved path data d w, Returned tt)
               | Fail kind msg => (spoiled path d w, Raised (Exception kind msg))
               end
           end.

(** Lines 41-42: [int(img.height * (max_width / img.width))]. *)
Definition new_height_of (img_width img_height max_width : Z)
  : Float64.arith_error + Z :=
  match Float64.truediv max_width img_width with
  | inl err => inl err
  | inr ratio =>
      match Float64.int_mul img_height ratio with
      | inl err => inl err
      | inr x => Float64.to_int x
      end
  end.

(** Lines 25-46: the image that [optimize_image] hands to [save]. *)
Definition prepare (input_path : string) (max_width : Z) : M image :=
  img <- Image_open input_path ;;
  img <- lift (normalize img) ;;
  if width img >? max_width then
    new_height <- lift_arith (new_height_of (width img) (height img) max_width) ;;
    img <- lift (resize img (max_width, new_height)) ;;
    original <- Image_open input_path ;;
    print (Resized input_path (size original) (size img)) ;;;
    ret img
  else
    print (NoResize input_path (size img)) ;;;
    ret img.

(** Lines 52-57.  The sizes are shown in bytes, not megabytes; the
    quotient [(original_size - webp_size) / original_size] raises
    [ZeroDivisionError] exactly when the original has no byte. *)
Definition report_sizes (input_path output_path : string) : M unit :=
  original_size <- getsize input_path ;;
  webp_size <- getsize output_path ;;
  (if original_size =? 0
   then raise (Exception "ZeroDivisionError" "float division by zero")
   else ret tt) ;;;
  print (Created output_path) ;;;
  print (Sizes original_size webp_size).

Definition optimize_image (input_path output_path : string)
           (max_width quality : Z) : M bool :=
  try_except
    (img <- prepare input_path max_width ;;
     Image_save img output_path quality ;;;
     report_sizes input_path output_path ;;;
     ret true)
    (fun kind msg =>
       print (Error input_path msg) ;;;
       ret false).

(** The body of the loop of [main], on the two counters. *)
Definition process_file (img_file : string) (counts : Z * Z) : M (Z * Z) :=
  let '(optimized_count, skipped_count) := counts in
  let webp_path := with_suffix img_file ".webp" in
  there <- path_exists webp_path ;;
  newer <- (if there : bool then
              t_webp <- stat_mtime webp_path ;;
              t_img <- stat_mtime img_file ;;
              ret (t_webp >? t_img)
            else ret false) ;;
  if newer : bool then
    print (Skipping img_file) ;;;
    ret (optimized_count, skipped_count + 1)
  else
    print (Processing img_file) ;;;
    ok <- optimize_image img_file webp_path 3000 92 ;;
    if ok : bool then ret (optimized_count + 1, skipped_count)
    else ret (optimized_count, skipped_count).

Fixpoint for_each (files : list string) (counts : Z * Z) : M (Z * Z) :=
  match files with
  | [] => ret counts
  | img_file :: rest =>
      counts <- process_file img_file counts ;;
      for_each rest counts
  end.

(** [photos_dir.iterdir()]. *)
Definition iterdir : M (list string) :=
  fun w => match photos w with
           | Some d => (w, Returned (map fst d))
           | None => (w, Raised (Exception "FileNotFoundError" "dist/assets/PHOTOS"))
           end.

(** [photos_dir.exists()]. *)
Definition photos_dir_exists : M bool :=
  fun w => (w, Returned (match photos w with Some _ => true | None => false end)).

Definition main : M unit :=
  there <- photos_dir_exists ;;
  if negb there then
    print DirNotFound
  else
    names <- iterdir ;;
    let image_files := filter is_image_file names in
    match image_files with
    | [] => print NoImagesFound
    | _ =>
        print (Found (Z.of_nat (List.length image_files))) ;;;
        counts <- for_each (sorted image_files) (0, 0) ;;
        print (Summary (fst counts) (snd counts))
    end.

End Script.

(** ** A small codec to run the script on

    [RawCodec] reads and writes an uncompressed format: a mode byte, a width
    byte, a height byte, then the bands of the pixels row by row.  Palettes
    are grey ramps whose index 0 is transparent.  The mode byte 6 opens a
    flat RGB picture: a width byte, two height bytes and the one colour of
    all its pixels.  As Pillow does, the decoder refuses an empty file. *)

Definition byte_val (b : Byte.byte) : Z := Z.of_N (Byte.to_N b).

Definition byte_of (z : Z) : Byte.byte :=
  match Byte.of_N (Z.to_N (z mod 256)) with
  | Some b => b
  | None => Byte.x00
  end.

Definition raw_mode (c : Z) : option (string * Z) :=
  if c =? 0 then Some ("RGB", 3)
  else if c =? 1 then Some ("RGBA", 4)
  else if c =? 2 then Some ("LA", 2)
  else if c =? 3 then Some ("P", 1)
  else if c =? 4 then Some ("L", 1)
  else if c =? 5 then Some ("PA", 2)
  else None.

Definition raw_decode (bytes : list Byte.byte) : result image :=
  match bytes with
  | c :: w :: h :: data =>
      if byte_val c =? 6 then
        match data with
        | [l; r; g; b] =>
            let w := byte_val w in
            let h := 256 * byte_val h + byte_val l in
            if ((1 <=? w) && (1 <=? h))%bool then
              Ok {| mode := "RGB"; width := w; height := h;
                    getpixel := fun _ _ => [byte_val r; byte_val g; byte_val b] |}
            else Fail "OSError" "image file is truncated"
        | _ => Fail "OSError" "image file is truncated"
        end
      else
      match raw_mode (byte_val c) with
      | Some (m, nb) =>
          let w := byte_val w in
          let h := byte_val h in
          if ((1 <=? w) && (1 <=? h)
              && (Z.of_nat (List.length data) =? w * h * nb))%bool then
            Ok {| mode := m; width := w; height := h;
                  getpixel := fun x y =>
                    firstn (Z.to_nat nb)
                      (skipn (Z.to_nat ((y * w + x) * nb)) (map byte_val data)) |}
          else Fail "OSError" "image file is truncated"
      | None => Fail "UnidentifiedImageError" "cannot identify image file"
      end
  | _ => Fail "UnidentifiedImageError" "cannot identify image file"
  end.

Definition raw_convert_data (target : string) (img : image)
  : result (Z -> Z -> list Z) :=
  let grey x y := let i := nth 0 (getpixel img x y) 0 in [i; i; i] in
  let m := mode img in
  if (target =? "RGB")%string then
    if mem_string m ["P"; "PA"; "L"; "LA"] then Ok grey
    else if mem_string m ["RGB"; "RGBA"] then
      Ok (fun x y => rgb_bytes m (getpixel img x y))
    else Fail "ValueError" "conversion not supported"
  else if ((target =? "RGBA") && (m =? "P"))%string%bool then
    Ok (fun x y => let i := nth 0 (getpixel img x y) 0 in
                   [i; i; i; if i =? 0 then 0 else 255])
  else Fail "ValueError" "conversion not supported".

(** Nearest-neighbour stands in for the Lanczos filter; as in Pillow an
    empty target is refused. *)
Definition raw_resample (img : image) (w h : Z) : result (Z -> Z -> list Z) :=
  if ((w <=? 0) || (h <=? 0))%bool then
    Fail "ValueError" "height and width must be > 0"
  else Ok (fun x y => getpixel img (x * width img / w) (y * height img / h)).

(** The encoder keeps a header only; as WebP it refuses sides above 16383. *)
Definition raw_encode (img : image) (quality method : Z) : result (list Byte.byte) :=
  if ((16383 <? width img) || (16383 <? height img))%bool then
    Fail "ValueError" "encoding error 5: Image size exceeds WebP limit of 16383 pixels"
  else Ok [Byte.x00; byte_of (width img); byte_of (height img)].

Definition RawCodec : Codec :=
  {| decode := raw_decode;
     convert_data := raw_convert_data;
     resample := raw_resample;
     encode_webp := raw_encode |}.

Definition raw_file (bytes : list Z) (t : Z) : file :=
  {| contents := map byte_of bytes; st_mtime := t |}.

(** A directory to run on: a 2x1 RGBA picture whose first pixel is fully
    transparent, a 4x2 RGB picture, a file that is no image, and a WebP
    left by an earlier run. *)
Definition sample_dir : directory :=
  [ ("b.png", raw_file [1; 2; 1;  9; 9; 9; 0;  10; 20; 30; 255] 5);
    ("notes.txt", raw_file [7; 7] 1);
    ("a.jpg", raw_file [0; 4; 2;  1;1;1; 2;2;2; 3;3;3; 4;4;4;
                                  5;5;5; 6;6;6; 7;7;7; 8;8;8] 3);
    ("c.JPEG", raw_file [42] 4);
    ("a.webp", raw_file [0; 4; 2] 8) ].

Definition sample_world : world :=
  {| photos := Some sample_dir; clock := 100; console := [] |}.

(** The same files, enumerated in another order and at another time. *)
Definition shuffled_world : world :=
  {| photos := Some (rev sample_dir); clock := 250; console := [Found 0] |}.

(** A directory whose candidates all have a newer WebP. *)
Definition settled_world : world :=
  {| photos := Some [ ("b.png", raw_file [1; 1; 1;  9; 9; 9; 0] 5);
                      ("b.webp", raw_file [0; 1; 1] 9);
                      ("a.webp", raw_file [0; 4; 2] 8);
                      ("a.jpg", raw_file [42] 3) ];
     clock := 100; console := [] |}.

(** A directory whose candidate carries a modification time in the future
    of the run. *)
Definition future_world : world :=
  {| photos := Some [("a.jpg", raw_file [0; 1; 1;  7; 7; 7] 500)];
     clock := 100; console := [] |}.

(** A directory with a 4x5 RGB picture. *)
Definition wide_world : world :=
  {| photos := Some [("wide.png", raw_file (0 :: 4 :: 5 :: repeat 7 60) 3)];
     clock := 100; console := [] |}.

(** A 2x1 RGBA raster whose first pixel is fully transparent, and a 1x1
    palette raster with an alpha band whose pixel is fully transparent. *)
Definition sample_rgba : image :=
  {| mode := "RGBA"; width := 2; height := 1;
     getpixel := fun x _ => if x =? 0 then [9; 9; 9; 0] else [10; 20; 30; 255] |}.

Definition sample_pa : image :=
  {| mode := "PA"; width := 1; height := 1; getpixel := fun _ _ => [9; 0] |}.

(** A world in which [dist/assets/PHOTOS] does not exist. *)
Definition absent_world : world :=
  {| photos := None; clock := 100; console := [] |}.

(** A directory with a flat picture of 1 by 20480 pixels, taller than a
    WebP can be, and the WebP an earlier run left for it when it was
    smaller. *)
Definition tall_dir : directory :=
  [ ("tall.png", raw_file [6; 1; 80; 0;  7; 7; 7] 5);
    ("tall.webp", raw_file [0; 1; 9] 4) ].

Definition tall_world : world :=
  {| photos := Some tall_dir; clock := 100; console := [] |}.

(** A directory with one candidate last modified before the run and one
    whose modification time lies in the future of the run. *)
Definition mixed_dir : directory :=
  [ ("z.jpg", raw_file [0; 1; 1;  7; 7; 7] 500);
    ("a.jpg", raw_file [0; 1; 1;  7; 7; 7] 3) ].

Definition mixed_world : world :=
  {| photos := Some mixed_dir; clock := 100; console := [] |}.


(** The three library stages of [optimize_image], and the colour
    conversion between the first two. *)
Inductive stage := Decoding | Converting | Resizing | Encoding.

(** A stage failing with an error of class [kind] and message [msg] when
    [input_path] is transformed in the world [w]. *)
Inductive stage_failure {codec : Codec} (input_path : string) (max_width quality : Z)
          (w : world) (kind msg : string) : stage -> Prop :=
| decode_fails f :
    find_file input_path w = Some f ->
    decode (contents f) = Fail kind msg ->
    stage_failure input_path max_width quality w kind msg Decoding
| convert_fails f original :
    find_file input_path w = Some f ->
    decode (contents f) = Ok original ->
    normalize original = Fail kind msg ->
    stage_failure input_path max_width quality w kind msg Converting
| resize_fails f original img new_height :
    find_file input_path w = Some f ->
    decode (contents f) = Ok original ->
    normalize original = Ok img ->
    (width img >? max_width) = true ->
    new_height_of (width img) (height img) max_width = inr new_height ->
    resize img (max_width, new_height) = Fail kind msg ->
    stage_failure input_path max_width quality w kind msg Resizing
| encode_fails w1 img :
    prepare input_path max_width w = (w1, Returned img) ->
    encode_webp img quality 6 = Fail kind msg ->
    stage_failure input_path max_width quality w kind msg Encoding.

(** What a failed stage leaves of the output file [fo]: the encoder runs
    once the output is open for writing, so a file that was there is then
    empty and stamped with the time [t] of the call. *)
Definition output_after_failure (st : stage) (t : Z) (fo : option file) : option file :=
  match st, fo with
  | Encoding, Some _ => Some {| contents := []; st_mtime := t |}
  | _, _ => fo
  end.

(** ** Reading a run off the console *)

(** The files the loop of [main] reached, in order: each one is announced
    by its [Skipping] or its [Processing] line. *)
Definition visited (evs : list event) : list string :=
  flat_map (fun e => match e with
                     | Skipping name | Processing name => [name]
                     | _ => []
                     end) evs.

Definition is_skip (e : event) : bool :=
  match e with Skipping _ => true | _ => false end.
Definition is_error (e : event) : bool :=
  match e with Error _ _ => true | _ => false end.
Definition is_created (e : event) : bool :=
  match e with Created _ => true | _ => false end.

(** How many lines of a kind were printed. *)
Definition count (p : event -> bool) (evs : list event) : Z :=
  Z.of_nat (List.length (filter p evs)).

(** The lines a run added to the console of the world it started in. *)
Definition run_events (w0 w' : world) : list event :=
  skipn (List.length (console w0)) (console w').

(** The WebP a candidate is converted to. *)
Definition webp_of (img_file : string) : string := with_suffix img_file ".webp".

(** The order of the names: [a <= b], character by character. *)
Definition path_le (a b : string) : Prop := String.leb a b = true.

(** The candidates of a directory, in the order [iterdir] yields them. *)
Definition image_files (d : directory) : list string :=
  filter is_image_file (map fst d).

(** Lines that announce no file and report no outcome. *)
Definition silent (evs : list event) : Prop :=
  visited evs = [] /\ count is_skip evs = 0 /\ count is_error evs = 0
  /\ count is_created evs = 0.

(** What [prepare], ended in [w1] with the outcome [r], left behind: the
    files and the clock as they were, at most a resize line on the console,
    and no exception but an [Exception]; it returns only if the input is
    there. *)
Definition prepared (input_path : string) (w w1 : world) (r : outcome image) : Prop :=
  photos w1 = photos w /\ clock w1 = clock w
  /\ (exists evs, console w1 = (console w ++ evs)%list /\ silent evs)
  /\ (forall kind, r <> Raised (BaseException kind))
  /\ (forall img, r = Returned img -> find_file input_path w <> None).

(** A step that writes at most the file [path], stamped no earlier than the
    clock it started at. *)
Definition touches (path : string) (w w' : world) : Prop :=
  clock w <= clock w'
  /\ (forall name, name <> path -> find_file name w' = find_file name w)
  /\ (find_file path w' = find_file path w
      \/ exists fo, find_file path w' = Some fo /\ clock w <= st_mtime fo).

(** What one call of [optimize_image] that returned [b] left behind: the
    lines [evs] on the console, among them one [Error] line if [b] is false
    and one [Created] line if it is true, and no file touched but the
    output, which is there if [b] is true. *)
Definition transformed (input_path output_path : string) (w w' : world)
           (b : bool) (evs : list event) : Prop :=
  console w' = (console w ++ evs)%list
  /\ visited evs = []
  /\ count is_skip evs = 0
  /\ count is_error evs = (if b then 0 else 1)
  /\ count is_created evs = (if b then 1 else 0)
  /\ (b = false -> exists msg, In (Error input_path msg) evs)
  /\ touches output_path w w'
  /\ (b = true ->
      exists fo, find_file output_path w' = Some fo /\ clock w <= st_mtime fo).

(** Does the WebP of a candidate exist, with a modification time strictly
    after the candidate's? *)
Definition output_is_newer (w : world) (img_file : string) : bool :=
  match find_file (webp_of img_file) w, find_file img_file w with
  | Some fo, Some fi => st_mtime fo >? st_mtime fi
  | _, _ => false
  end.

(** A run that writes WebP files only, stamped no earlier than the clock it
    started at. *)
Definition evolves (w w' : world) : Prop :=
  clock w <= clock w'
  /\ forall name,
       find_file name w' = find_file name w
       \/ (endswith name ".webp" = true
           /\ exists fo, find_file name w' = Some fo /\ clock w <= st_mtime fo).

(** After a run from [w0] to [w'], the candidate [f] is accounted for: its
    WebP exists and is newer than it, or the run printed that it skipped
    the file, or that it failed on it. *)
Definition accounted_for (w0 w' : world) (f : string) : Prop :=
  (exists fo fi,
      find_file (webp_of f) w' = Some fo /\ find_file f w' = Some fi
      /\ st_mtime fi < st_mtime fo)
  \/ In (Skipping f) (run_events w0 w')
  \/ (exists msg, In (Error f msg) (run_events w0 w')).

(** What the loop of [main] left behind after [files], started in [w] with
    the counters [(o, s)]: every file visited in order, each one counted
    once, as skipped, created or failed. *)
Definition looped (files : list string) (w w' : world) (o s o' s' : Z)
           (evs : list event) : Prop :=
  console w' = (console w ++ evs)%list
  /\ visited evs = files
  /\ s' = s + count is_skip evs
  /\ o' = o + count is_created evs
  /\ count is_skip evs + count is_created evs + count is_error evs
     = Z.of_nat (List.length files)
  /\ evolves w w'
  /\ forall f, In f files ->
       (exists fo, find_file (webp_of f) w' = Some fo /\ clock w <= st_mtime fo)
       \/ In (Skipping f) evs
       \/ (exists msg, In (Error f msg) evs).

(** [PurePath.stem] of a path whose final component is [name]: the name
    without its suffix. *)
Definition stem (name : string) : string :=
  slice_to (len name - len (suffix name)) name.

(** The extensions of [image_extensions] that are in lower case. *)
Definition lower_extensions : list string := [".jpg"; ".jpeg"; ".png"].

(** A directory with a JPEG and a PNG of the same stem. *)
Definition twin_world : world :=
  {| photos := Some [ ("a.png", raw_file [1; 1; 1;  9; 9; 9; 0] 5);
                      ("a.jpg", raw_file [0; 1; 1;  7; 7; 7] 3) ];
     clock := 100; console := [] |}.

(** The image [prepare] returns for [a.jpg] of [sample_world], fitted to the
    width 2. *)
Definition fitted_sample : image :=
  match snd (@prepare RawCodec "a.jpg" 2 sample_world) with
  | Returned img => img
  | Raised _ => Image_new "" (0, 0) []
  end.

(** The image [prepare] returns for [tall.png] of [tall_world]. *)
Definition tall_sample : image :=
  match snd (@prepare RawCodec "tall.png" 3000 tall_world) with
  | Returned img => img
  | Raised _ => Image_new "" (0, 0) []
  end.

(** A directory without any image. *)
Definition no_image_world : world :=
  {| photos := Some [ ("notes.txt", raw_file [7; 7] 1);
                      (".jpg", raw_file [0; 1; 1;  7; 7; 7] 2);
                      ("old.webp", raw_file [0; 1; 1] 3) ];
     clock := 100; console := [] |}.

(** Rounding to the nearest integer as Python's [round] does on the exact
    quotient [a / b] (ties to even): the height of a resize that rounds. *)
Definition round_div (a b : Z) : Z := Float64.rne a b.

(** The values of a byte, and the test that the blend of the byte [s] over
    white through the mask [a] is a byte no darker than [s], and [s] itself
    through a full mask. *)
Definition byte_values : list Z := map Z.of_nat (seq 0 256).

Definition blend_over_white_in_range (a s : Z) : bool :=
  ((s <=? blend8 a 255 s) && (blend8 a 255 s <=? 255)
   && (if a =? 255 then blend8 a 255 s =? s else true))%bool.

(** * Facts *)

(** ** Binary64 rounding *)

Section Float64Facts.
Import Float64.

(** The rounding written out in [Float64] against the Standard Library's
    IEEE-754 reference, on quotients and products that are exact, inexact,
    ties, negative and subnormal. *)
Example truediv_agrees_with_reference :
  forallb truediv_agrees
    [ (2, 3); (1, 49); (3000, 4000); (3000, 4177); (3000, 4001); (1, 3);
      (3000, 65535); (2 ^ 53 + 1, 1); (2 ^ 53 + 3, 1); (2 ^ 54 + 2, 1);
      (2 ^ 54 + 6, 1); (- 7, 3); (7, - 3); (2 ^ 1023, 1); (1, 2 ^ 1023);
      (3, 2 ^ 1023); (2 ^ 53 - 1, 2 ^ 1023); (5, 2 ^ 1022); (1, 2 ^ 1000);
      (2 ^ 1023, 3); (2 ^ 600 + 1, 2 ^ 500 - 1) ] = true.
Proof. vm_compute. reflexivity. Qed.

Example int_mul_agrees_with_reference :
  forallb int_mul_agrees
    [ (49, 1, 49); (4177, 3000, 4177); (1001, 3000, 4000); (3, 1, 3);
      (7, 1, 2 ^ 1023); (3, 1, 2 ^ 1023); (2 ^ 60 + 1, 3, 7); (- 5, 2, 3);
      (4, 2, 3); (5, 3, 4); (2 ^ 52 + 1, 1, 2 ^ 1023); (6000, 3000, 6000) ] = true.
Proof. vm_compute. reflexivity. Qed.

(** The two products the text-book example and a square photograph lose a
    unit on: [49 * (1 / 49)] and [4177 * (3000 / 4177)]. *)
Example exact_quotient_loses_one :
  new_height_of 49 49 1 = inr 0 /\ new_height_of 4177 4177 3000 = inr 2999.
Proof. split; vm_compute; reflexivity. Qed.

Lemma pow2_pos e : 0 <= e -> 0 < pow2 e.
Proof. intros He. unfold pow2. apply Z.pow_pos_nonneg; lia. Qed.

Lemma pow2_add a b : 0 <= a -> 0 <= b -> pow2 (a + b) = pow2 a * pow2 b.
Proof. intros Ha Hb. unfold pow2. apply Z.pow_add_r; assumption. Qed.

Lemma pow2_0 : pow2 0 = 1.
Proof. reflexivity. Qed.

Lemma pow2_succ a : 0 <= a -> pow2 (a + 1) = 2 * pow2 a.
Proof. intros Ha. rewrite pow2_add by lia. change (pow2 1) with 2. lia. Qed.

Lemma pow2_log2 n : 0 < n -> pow2 (Z.log2 n) <= n < 2 * pow2 (Z.log2 n).
Proof.
  intros Hn. destruct (Z.log2_spec n Hn) as [Hlo Hhi]. unfold pow2.
  rewrite <- Z.add_1_r in Hhi.
  rewrite Z.pow_add_r in Hhi by (try apply Z.log2_nonneg; lia).
  change (2 ^ 1) with 2 in Hhi. lia.
Qed.

(** [ilog2_ratio n d] is the binary order of magnitude of [n / d]. *)
Lemma ilog2_ratio_spec n d :
  0 < n -> 0 < d ->
  let k := ilog2_ratio n d in
  d * pow2 (Z.max 0 k) <= n * pow2 (Z.max 0 (- k))
  /\ n * pow2 (Z.max 0 (- k)) < 2 * (d * pow2 (Z.max 0 k)).
Proof.
  intros Hn Hd. unfold ilog2_ratio.
  pose proof (pow2_log2 n Hn) as [HnA HnB].
  pose proof (pow2_log2 d Hd) as [HdA HdB].
  pose proof (Z.log2_nonneg n) as Ha. pose proof (Z.log2_nonneg d) as Hb.
  set (a := Z.log2 n) in *. set (b := Z.log2 d) in *.
  pose proof (pow2_pos a Ha) as HA. pose proof (pow2_pos b Hb) as HB.
  destruct (Z_le_gt_dec 0 (a - b)) as [Hk | Hk].
  - (* a = b + k0 *)
    assert (HAB : pow2 a = pow2 (a - b) * pow2 b).
    { rewrite <- pow2_add by lia. f_equal. lia. }
    pose proof (pow2_pos (a - b) Hk) as HK.
    replace (Z.max 0 (a - b)) with (a - b) by lia.
    replace (Z.max 0 (- (a - b))) with 0 by lia.
    rewrite pow2_0.
    destruct (Z.leb_spec (d * pow2 (a - b)) (n * 1)) as [Ht | Ht]; cbv zeta.
    + replace (Z.max 0 (a - b)) with (a - b) by lia.
      replace (Z.max 0 (- (a - b))) with 0 by lia.
      rewrite pow2_0. split; [lia | nia].
    + destruct (Z.eq_dec (a - b) 0) as [H0 | H0].
      * rewrite H0 in *. rewrite pow2_0 in *.
        change (pow2 (Z.max 0 (0 - 1))) with 1.
        change (pow2 (Z.max 0 (- (0 - 1)))) with 2. lia.
      * replace (Z.max 0 (a - b - 1)) with (a - b - 1) by lia.
        replace (Z.max 0 (- (a - b - 1))) with 0 by lia.
        rewrite pow2_0.
        assert (HK1 : pow2 (a - b) = 2 * pow2 (a - b - 1)).
        { rewrite <- pow2_succ by lia. f_equal. lia. }
        pose proof (pow2_pos (a - b - 1) ltac:(lia)). split; nia.
  - assert (HAB : pow2 b = pow2 (b - a) * pow2 a).
    { rewrite <- pow2_add by lia. f_equal. lia. }
    pose proof (pow2_pos (b - a) ltac:(lia)) as HK.
    replace (Z.max 0 (a - b)) with 0 by lia.
    replace (Z.max 0 (- (a - b))) with (b - a) by lia.
    rewrite pow2_0.
    destruct (Z.leb_spec (d * 1) (n * pow2 (b - a))) as [Ht | Ht]; cbv zeta.
    + replace (Z.max 0 (a - b)) with 0 by lia.
      replace (Z.max 0 (- (a - b))) with (b - a) by lia.
      rewrite pow2_0. split; [lia | nia].
    + replace (Z.max 0 (a - b - 1)) with 0 by lia.
      replace (Z.max 0 (- (a - b - 1))) with (b - a + 1) by lia.
      rewrite pow2_0, pow2_succ by lia. split; nia.
Qed.

(** [rne] is within half a unit of the exact quotient. *)
Lemma rne_spec num den :
  0 <= num -> 0 < den ->
  - den <= 2 * (rne num den * den) - 2 * num <= den.
Proof.
  intros Hn Hd. unfold rne.
  pose proof (Z.div_mod num den ltac:(lia)) as Hdm.
  pose proof (Z.mod_pos_bound num den Hd) as Hr.
  set (q := num / den) in *. set (r := num mod den) in *.
  destruct (Z.compare_spec (2 * r) den); [destruct (Z.even q) | | ]; nia.
Qed.

Lemma pow2_le_mono a b : 0 <= a <= b -> pow2 a <= pow2 b.
Proof. intros H. unfold pow2. apply Z.pow_le_mono_r; lia. Qed.

(** Rounding a rational of the normal range below [2^52]: the exponent is
    negative, the significand has 53 bits and is within half a unit of
    the scaled value. *)
Lemma round_pos_spec n d m e :
  0 < n -> 0 < d -> n < pow2 52 * d -> d <= n * pow2 1022 ->
  round_pos n d = (m, e) ->
  emin <= e < 0
  /\ - d <= 2 * (m * d) - 2 * (n * pow2 (- e)) <= d
  /\ pow2 52 * d <= n * pow2 (- e) < 2 * (pow2 52 * d).
Proof.
  intros Hn Hd Hhi Hlo Hr. unfold round_pos in Hr.
  pose proof (ilog2_ratio_spec n d Hn Hd) as [Hk1 Hk2]. cbv zeta in Hk1, Hk2.
  set (k := ilog2_ratio n d) in *.
  assert (Hk52 : k < 52).
  { destruct (Z_lt_ge_dec k 52) as [|Hge]; [assumption | exfalso].
    replace (Z.max 0 k) with k in * by lia.
    replace (Z.max 0 (- k)) with 0 in * by lia. rewrite pow2_0 in *.
    pose proof (pow2_le_mono 52 k ltac:(lia)). pose proof (pow2_pos 52 ltac:(lia)). nia. }
  assert (Hk1022 : -1022 <= k).
  { destruct (Z_le_gt_dec (-1022) k) as [|Hlt]; [assumption | exfalso].
    replace (Z.max 0 k) with 0 in * by lia.
    replace (Z.max 0 (- k)) with (- k) in * by lia. rewrite pow2_0 in *.
    pose proof (pow2_le_mono 1023 (- k) ltac:(lia)).
    change (pow2 1023) with (2 * pow2 1022) in *.
    pose proof (pow2_pos 1022 ltac:(lia)). nia. }
  change (prec - 1) with 52 in Hr. unfold emin in *.
  replace (Z.max (k - 52) (-1074)) with (k - 52) in Hr by lia.
  replace (Z.max 0 (- (k - 52))) with (52 - k) in Hr by lia.
  replace (Z.max 0 (k - 52)) with 0 in Hr by lia. rewrite pow2_0 in Hr.
  apply pair_equal_spec in Hr. destruct Hr as [Hm He]. subst e.
  replace (- (k - 52)) with (52 - k) by lia.
  pose proof (pow2_pos (52 - k) ltac:(lia)) as HP.
  split; [lia | split].
  - pose proof (rne_spec (n * pow2 (52 - k)) (d * 1) ltac:(nia) ltac:(lia)) as Hrne.
    rewrite Hm in Hrne. replace (d * 1) with d in Hrne by lia. exact Hrne.
  - destruct (Z_le_gt_dec 0 k) as [Hk | Hk].
    + replace (Z.max 0 k) with k in * by lia.
      replace (Z.max 0 (- k)) with 0 in * by lia. rewrite pow2_0 in *.
      assert (H52 : pow2 52 = pow2 k * pow2 (52 - k)).
      { rewrite <- pow2_add by lia. f_equal. lia. }
      rewrite H52. pose proof (pow2_pos k Hk). split; nia.
    + replace (Z.max 0 k) with 0 in * by lia.
      replace (Z.max 0 (- k)) with (- k) in * by lia. rewrite pow2_0 in *.
      assert (HPk : pow2 (52 - k) = pow2 52 * pow2 (- k)).
      { rewrite <- pow2_add by lia. f_equal. }
      rewrite HPk. pose proof (pow2_pos 52 ltac:(lia)). split; nia.
Qed.

(** The two roundings of [int(h * (mw / w))] move the exact quotient by
    less than [1 / w]. *)
Lemma two_roundings_close a P1 P2 m1 h mw w T :
  0 < T -> 0 < P1 -> 0 < P2 -> 0 < h -> 0 < mw -> 0 < w -> 0 <= m1 ->
  - P1 <= 2 * (a * P1) - 2 * (h * m1 * P2) <= P1 ->
  - w <= 2 * (m1 * w) - 2 * (mw * P1) <= w ->
  T * P1 <= h * m1 * P2 ->
  T * w <= mw * P1 ->
  2 * (h * mw) <= T ->
  - P2 < a * w - h * mw * P2 < P2.
Proof.
  intros HT HP1 HP2 Hh Hmw Hw Hm1 HA HB HC HD HH.
  assert (S1 : 2 * (h * w) <= P1).
  { assert (E1 : 2 * h * (T * w) <= 2 * h * (mw * P1))
      by (apply Z.mul_le_mono_nonneg_l; lia).
    assert (E2 : 2 * (h * mw) * P1 <= T * P1)
      by (apply Z.mul_le_mono_nonneg_r; lia).
    apply (Z.mul_le_mono_pos_l _ _ T HT). lia. }
  assert (S2 : 4 * w <= 3 * P2).
  { assert (E1 : T * P1 * (2 * w) <= h * m1 * P2 * (2 * w))
      by (apply Z.mul_le_mono_nonneg_r; lia).
    assert (E2 : h * P2 * (2 * (m1 * w)) <= h * P2 * (2 * (mw * P1) + w))
      by (apply Z.mul_le_mono_nonneg_l; nia).
    assert (E3 : 2 * (h * mw) * (P1 * P2) <= T * (P1 * P2))
      by (apply Z.mul_le_mono_nonneg_r; nia).
    assert (E4 : 2 * (h * w) * P2 <= P1 * P2)
      by (apply Z.mul_le_mono_nonneg_r; lia).
    assert (E5 : P1 * (4 * (T * w)) <= P1 * ((2 * T + 1) * P2)) by lia.
    apply Z.mul_le_mono_pos_l in E5; [| assumption].
    assert (E6 : T * (4 * w) <= T * (3 * P2)) by nia.
    apply Z.mul_le_mono_pos_l in E6; assumption. }
  set (X := 2 * (a * P1) - 2 * (h * m1 * P2)) in *.
  set (Y := 2 * (m1 * w) - 2 * (mw * P1)) in *.
  assert (EQ : 2 * P1 * (a * w - h * mw * P2) = w * X + h * P2 * Y)
    by (unfold X, Y; ring).
  assert (BX : - (w * P1) <= w * X <= w * P1) by nia.
  assert (BY : - (h * P2 * w) <= h * P2 * Y <= h * P2 * w).
  { assert (0 <= h * P2) by nia. split; nia. }
  assert (F1 : 4 * (w * P1) <= 3 * (P1 * P2)) by nia.
  assert (F2 : 2 * (h * P2 * w) <= P1 * P2) by nia.
  assert (F3 : 0 < P1 * P2) by nia.
  assert (G : - (2 * P1 * P2) < 2 * P1 * (a * w - h * mw * P2) < 2 * P1 * P2) by lia.
  split; nia.
Qed.

(** Truncating a value within [1 / w] of [q / w]. *)
Lemma floor_close a P q w :
  0 < P -> 0 < w -> 0 <= q ->
  - P < a * w - q * P < P ->
  (q mod w <> 0 -> a / P = q / w)
  /\ (q mod w = 0 -> a / P = q / w \/ a / P = q / w - 1).
Proof.
  intros HP Hw Hq Hclose.
  pose proof (Z.div_mod q w ltac:(lia)) as Hdm.
  pose proof (Z.mod_pos_bound q w Hw) as Hr.
  set (q0 := q / w) in *. set (r := q mod w) in *.
  split; intros Hrem.
  - symmetry. apply Z.div_unique_pos with (r := a - q0 * P); [| lia].
    assert (L : q0 * P * w <= a * w) by nia.
    assert (U : a * w < (q0 + 1) * P * w) by nia.
    split; nia.
  - assert (L : (q0 - 1) * P * w < a * w) by nia.
    assert (U : a * w < (q0 + 1) * P * w) by nia.
    assert (L' : (q0 - 1) * P < a) by nia.
    assert (U' : a < (q0 + 1) * P) by nia.
    destruct (Z_lt_ge_dec a (q0 * P)) as [Hlt | Hge].
    + right. symmetry.
      apply Z.div_unique_pos with (r := a - (q0 - 1) * P); lia.
    + left. symmetry.
      apply Z.div_unique_pos with (r := a - q0 * P); lia.
Qed.

Lemma round_finite n d m e :
  0 < n -> round_pos n d = (m, e) -> e < 0 -> round n d = Finite m e.
Proof.
  intros Hn Hr He. unfold round.
  replace (n ?= 0) with Gt by (symmetry; apply Z.compare_gt_iff; lia).
  rewrite Hr. cbv zeta. unfold overflows, fst, snd.
  change (emax - prec) with 971.
  replace (971 <? e) with false by (symmetry; apply Z.ltb_ge; lia).
  replace (e =? 971) with false by (symmetry; apply Z.eqb_neq; lia).
  reflexivity.
Qed.

(** What [int(h * (mw / w))] is worth, for a width that exceeds
    [mw]: the floor of the exact quotient, except that an exact integer
    quotient may lose one. *)
Lemma new_height_of_spec w h mw :
  0 < mw -> mw < w -> w <= pow2 1022 -> 0 < h -> h * mw <= pow2 51 ->
  exists nh,
    new_height_of w h mw = inr nh
    /\ ((h * mw) mod w <> 0 -> nh = h * mw / w)
    /\ ((h * mw) mod w = 0 -> nh = h * mw / w \/ nh = h * mw / w - 1).
Proof.
  intros Hmw Hw Hwmax Hh Hbound.
  pose proof (pow2_pos 52 ltac:(lia)) as HT.
  pose proof (pow2_pos 1022 ltac:(lia)) as HB.
  assert (HT2 : pow2 52 = 2 * pow2 51) by reflexivity.
  assert (Hh52 : h < pow2 52) by nia.
  assert (Hmw52 : mw < pow2 52) by nia.
  (* the ratio *)
  destruct (round_pos mw w) as [m1 e1] eqn:R1.
  pose proof (round_pos_spec mw w m1 e1 Hmw ltac:(lia) ltac:(nia) ltac:(nia) R1)
    as [[He1 He1'] [HB1 [HD1 HD1']]].
  pose proof (pow2_pos (- e1) ltac:(lia)) as HP1.
  assert (Hm1 : pow2 52 <= m1) by nia.
  (* float(h) *)
  destruct (round_pos h 1) as [mh eh] eqn:Rh.
  pose proof (round_pos_spec h 1 mh eh Hh ltac:(lia) ltac:(lia) ltac:(nia) Rh)
    as [[Heh Heh'] [HBh _]].
  pose proof (pow2_pos (- eh) ltac:(lia)) as HPh.
  assert (Hmh : mh = h * pow2 (- eh)) by lia.
  (* the product *)
  assert (HP1max : pow2 (- e1) <= pow2 1074).
  { apply pow2_le_mono. unfold emin in He1. lia. }
  assert (H1074 : pow2 1074 = pow2 52 * pow2 1022) by reflexivity.
  assert (S1 : 2 * (h * w) <= pow2 (- e1)).
  { assert (E1 : 2 * h * (pow2 52 * w) <= 2 * h * (mw * pow2 (- e1)))
      by (apply Z.mul_le_mono_nonneg_l; lia).
    assert (E2 : 2 * (h * mw) * pow2 (- e1) <= pow2 52 * pow2 (- e1))
      by (apply Z.mul_le_mono_nonneg_r; lia).
    apply (Z.mul_le_mono_pos_l _ _ (pow2 52) HT). lia. }
  assert (S2 : h * m1 < pow2 52 * pow2 (- e1)).
  { assert (E1 : h * (2 * (m1 * w)) <= h * (2 * (mw * pow2 (- e1)) + w))
      by (apply Z.mul_le_mono_nonneg_l; lia).
    assert (E2 : 2 * (h * mw) * pow2 (- e1) <= pow2 52 * pow2 (- e1))
      by (apply Z.mul_le_mono_nonneg_r; lia).
    assert (E3 : w * (h * m1) < w * (pow2 52 * pow2 (- e1))) by nia.
    apply Z.mul_lt_mono_pos_l in E3; lia. }
  destruct (round_pos (mh * m1) (pow2 (- eh) * pow2 (- e1))) as [m2 e2] eqn:R2.
  assert (Hn2 : 0 < mh * m1) by nia.
  assert (Hd2 : 0 < pow2 (- eh) * pow2 (- e1)) by nia.
  pose proof (round_pos_spec _ _ m2 e2 Hn2 Hd2) as Hsp.
  destruct Hsp as [[He2 He2'] [HA2 [HC2 _]]]; [subst mh; nia | subst mh | exact R2 |].
  { assert (E0 : pow2 52 * pow2 1022 <= m1 * pow2 1022)
      by (apply Z.mul_le_mono_nonneg_r; lia).
    assert (E0' : 1 * (m1 * pow2 1022) <= h * (m1 * pow2 1022))
      by (apply Z.mul_le_mono_nonneg_r; nia).
    assert (E1 : pow2 (- e1) <= h * m1 * pow2 1022) by lia.
    assert (E2 : pow2 (- eh) * pow2 (- e1) <= pow2 (- eh) * (h * m1 * pow2 1022))
      by (apply Z.mul_le_mono_nonneg_l; lia).
    lia. }
  pose proof (pow2_pos (- e2) ltac:(lia)) as HP2.
  assert (Hm2 : 0 <= m2) by nia.
  (* dividing the bounds of the product by [pow2 (- eh)] *)
  assert (HA : - pow2 (- e1) <= 2 * (m2 * pow2 (- e1)) - 2 * (h * m1 * pow2 (- e2))
               <= pow2 (- e1)).
  { subst mh. split.
    - apply (Z.mul_le_mono_pos_l _ _ (pow2 (- eh)) HPh). lia.
    - apply (Z.mul_le_mono_pos_l _ _ (pow2 (- eh)) HPh). lia. }
  assert (HC : pow2 52 * pow2 (- e1) <= h * m1 * pow2 (- e2)).
  { subst mh. apply (Z.mul_le_mono_pos_l _ _ (pow2 (- eh)) HPh). lia. }
  pose proof (two_roundings_close m2 (pow2 (- e1)) (pow2 (- e2)) m1 h mw w (pow2 52)
                HT HP1 HP2 Hh Hmw ltac:(lia) ltac:(lia) HA HB1 HC HD1 ltac:(lia))
    as Hclose.
  pose proof (floor_close m2 (pow2 (- e2)) (h * mw) w HP2 ltac:(lia) ltac:(nia) Hclose)
    as [Hfl1 Hfl2].
  exists (m2 / pow2 (- e2)). split; [| split; assumption].
  (* running the code *)
  unfold new_height_of, truediv.
  replace (w =? 0) with false by (symmetry; apply Z.eqb_neq; lia).
  rewrite Z.sgn_pos, Z.mul_1_r, Z.abs_eq by lia.
  rewrite (round_finite mw w m1 e1) by (assumption || lia).
  unfold int_mul, of_int.
  rewrite (round_finite h 1 mh eh) by (assumption || lia).
  unfold mul.
  replace (Z.max 0 (eh + e1)) with 0 by lia.
  replace (Z.max 0 (- (eh + e1))) with (- eh + - e1) by lia.
  rewrite pow2_0, Z.mul_1_r, pow2_add by lia.
  rewrite (round_finite _ _ m2 e2) by (assumption || lia).
  unfold to_int.
  replace (0 <=? e2) with false by (symmetry; apply Z.leb_gt; lia).
  rewrite Z.quot_div_nonneg by lia. reflexivity.
Qed.

End Float64Facts.

(** ** Names, suffixes and the sort *)

Section PathFacts.

Lemma substring_all s : substring 0 (String.length s) s = s.
Proof. induction s as [| c s IH]; simpl; [reflexivity | now rewrite IH]. Qed.

Lemma substring_app_r a b :
  substring (String.length a) (String.length (a ++ b) - String.length a) (a ++ b) = b.
Proof.
  induction a as [| c a IH]; simpl.
  - rewrite Nat.sub_0_r. apply substring_all.
  - exact IH.
Qed.

Lemma substring_split s : forall k,
  (k <= String.length s)%nat ->
  s = (substring 0 k s ++ substring k (String.length s - k) s)%string.
Proof.
  induction s as [| c s IH]; intros k Hk; simpl in *.
  - destruct k; reflexivity.
  - destruct k as [| k]; simpl.
    + now rewrite substring_all.
    + f_equal. apply IH. lia.
Qed.

Lemma string_length_app a b :
  String.length (a ++ b) = (String.length a + String.length b)%nat.
Proof. induction a as [| c a IH]; simpl; [reflexivity | now rewrite IH]. Qed.

Lemma endswith_inv s sfx :
  endswith s sfx = true -> exists pre, s = (pre ++ sfx)%string.
Proof.
  unfold endswith, slice_from, len. intros H.
  apply andb_true_iff in H. destruct H as [Hlen Heq].
  apply Z.leb_le in Hlen. apply String.eqb_eq in Heq.
  set (k := Z.to_nat (Z.of_nat (String.length s) - Z.of_nat (String.length sfx))) in *.
  exists (substring 0 k s). rewrite <- Heq. apply substring_split. lia.
Qed.

Lemma endswith_app pre sfx : endswith (pre ++ sfx) sfx = true.
Proof.
  unfold endswith, slice_from, len. rewrite string_length_app.
  apply andb_true_iff. split; [apply Z.leb_le; lia |].
  apply String.eqb_eq.
  replace (Z.to_nat (Z.of_nat (String.length pre + String.length sfx)
                     - Z.of_nat (String.length sfx))) with (String.length pre) by lia.
  rewrite <- string_length_app. apply substring_app_r.
Qed.

Lemma rfind_app_webp pre : rfind "."%char (pre ++ ".webp") = len pre.
Proof.
  unfold len. induction pre as [| c pre IH].
  - reflexivity.
  - cbn [append rfind String.length]. rewrite IH.
    replace (0 <=? Z.of_nat (String.length pre)) with true
      by (symmetry; apply Z.leb_le; lia).
    lia.
Qed.

Lemma suffix_app_webp pre :
  suffix (pre ++ ".webp") = if (pre =? "")%string then "" else ".webp".
Proof.
  unfold suffix. rewrite rfind_app_webp. unfold len, slice_from.
  rewrite string_length_app. destruct pre as [| c pre].
  - reflexivity.
  - replace (String.eqb (String c pre) "") with false by reflexivity.
    replace (0 <? Z.of_nat (String.length (String c pre))) with true
      by (symmetry; apply Z.ltb_lt; cbn [String.length]; lia).
    replace (Z.of_nat (String.length (String c pre))
             <? Z.of_nat (String.length (String c pre) + String.length ".webp") - 1)
      with true by (symmetry; apply Z.ltb_lt; cbn [String.length]; lia).
    cbn [andb]. rewrite Nat2Z.id, <- string_length_app. apply substring_app_r.
Qed.

(** A name that ends in [.webp] has no image extension. *)
Lemma webp_has_no_image_extension name :
  endswith name ".webp" = true -> has_image_extension name = false.
Proof.
  intros H. apply endswith_inv in H. destruct H as [pre ->].
  unfold has_image_extension. rewrite suffix_app_webp.
  destruct (pre =? "")%string; reflexivity.
Qed.

Lemma output_endswith_webp name : endswith (with_suffix name ".webp") ".webp" = true.
Proof.
  unfold with_suffix. destruct (suffix name =? "")%string; apply endswith_app.
Qed.

Lemma image_file_not_webp name :
  is_image_file name = true -> endswith name ".webp" = false.
Proof.
  unfold is_image_file. intros H. apply andb_true_iff in H.
  destruct H as [_ H]. now apply negb_true_iff in H.
Qed.

Lemma ascii_compare_N a b :
  Ascii.compare a b = N.compare (N_of_ascii a) (N_of_ascii b).
Proof. reflexivity. Qed.

Lemma string_compare_trans a : forall b c,
  String.compare a b <> Gt -> String.compare b c <> Gt -> String.compare a c <> Gt.
Proof.
  induction a as [| x a IH]; intros [| y b] [| z c]; simpl; try congruence.
  rewrite !ascii_compare_N.
  destruct (N.compare_spec (N_of_ascii x) (N_of_ascii y)) as [Exy | Lxy | Gxy];
    destruct (N.compare_spec (N_of_ascii y) (N_of_ascii z)) as [Eyz | Lyz | Gyz];
    destruct (N.compare_spec (N_of_ascii x) (N_of_ascii z)) as [Exz | Lxz | Gxz];
    intros H1 H2; try congruence; try lia.
  now apply IH with b.
Qed.

Lemma path_le_trans : Transitive path_le.
Proof.
  intros a b c. unfold path_le, String.leb. intros H1 H2.
  pose proof (string_compare_trans a b c) as H.
  destruct (String.compare a b); destruct (String.compare b c);
    destruct (String.compare a c); try discriminate; try reflexivity;
    exfalso; apply H; congruence.
Qed.

Lemma path_le_antisym a b : path_le a b -> path_le b a -> a = b.
Proof. apply String.leb_antisym. Qed.

Lemma sorted_perm l : Permutation l (sorted l).
Proof. apply PathSort.Permuted_sort. Qed.

Lemma sorted_in f l : In f (sorted l) <-> In f l.
Proof.
  split; apply Permutation_in; [symmetry |]; apply sorted_perm.
Qed.

Lemma sorted_length l : List.length (sorted l) = List.length l.
Proof. symmetry. apply Permutation_length, sorted_perm. Qed.

Lemma sorted_strongly l : StronglySorted path_le (sorted l).
Proof. apply PathSort.StronglySorted_sort. exact path_le_trans. Qed.

(** A list has one sorted arrangement only. *)
Lemma strongly_sorted_unique l1 : forall l2,
  StronglySorted path_le l1 -> StronglySorted path_le l2 ->
  Permutation l1 l2 -> l1 = l2.
Proof.
  induction l1 as [| a l1 IH]; intros l2 H1 H2 Hp.
  - apply Permutation_nil in Hp. now subst.
  - destruct l2 as [| b l2]; [apply Permutation_sym, Permutation_nil in Hp; discriminate |].
    inversion H1 as [| ? ? S1 F1]; subst. inversion H2 as [| ? ? S2 F2]; subst.
    assert (Hab : a = b).
    { assert (Ha : In a (b :: l2)) by (apply (Permutation_in _ Hp); now left).
      assert (Hb : In b (a :: l1))
        by (apply (Permutation_in _ (Permutation_sym Hp)); now left).
      destruct Ha as [-> | Ha]; [reflexivity |].
      destruct Hb as [-> | Hb]; [reflexivity |].
      rewrite Forall_forall in F1, F2.
      apply path_le_antisym; [apply F1 | apply F2]; assumption. }
    subst b. f_equal. apply IH; try assumption.
    now apply Permutation_cons_inv with a.
Qed.

Lemma sorted_of_permutation l1 l2 : Permutation l1 l2 -> sorted l1 = sorted l2.
Proof.
  intros Hp. apply strongly_sorted_unique; try apply sorted_strongly.
  transitivity l1; [symmetry; apply sorted_perm |].
  transitivity l2; [assumption | apply sorted_perm].
Qed.

End PathFacts.

(** ** The directory and the console *)

Section WorldFacts.

Lemma lookup_write_same name f d : lookup name (write name f d) = Some f.
Proof.
  induction d as [| [n g] d IH]; simpl.
  - now rewrite String.eqb_refl.
  - destruct (n =? name)%string eqn:E; simpl; rewrite E; [reflexivity | exact IH].
Qed.

Lemma lookup_write_other name name' f d :
  name <> name' -> lookup name' (write name f d) = lookup name' d.
Proof.
  intros Hne. induction d as [| [n g] d IH]; simpl.
  - apply String.eqb_neq in Hne. now rewrite Hne.
  - destruct (n =? name)%string eqn:E; simpl.
    + apply String.eqb_eq in E. subst n.
      apply String.eqb_neq in Hne. now rewrite Hne.
    + destruct (n =? name')%string; [reflexivity | exact IH].
Qed.

Lemma lookup_listed name d : In name (map fst d) -> lookup name d <> None.
Proof.
  induction d as [| [n g] d IH]; simpl; [tauto |].
  intros [-> | Hin].
  - now rewrite String.eqb_refl.
  - destruct (n =? name)%string; [discriminate | auto].
Qed.

Lemma find_file_log name e w : find_file name (log e w) = find_file name w.
Proof. reflexivity. Qed.

Lemma find_file_saved_same name data d w :
  find_file name (saved name data d w)
  = Some {| contents := data; st_mtime := clock w |}.
Proof. unfold find_file, saved; simpl. apply lookup_write_same. Qed.

Lemma find_file_saved_other name name' data d w :
  photos w = Some d -> name <> name' ->
  find_file name' (saved name data d w) = find_file name' w.
Proof.
  intros Hp Hne. unfold find_file, saved; simpl. rewrite Hp.
  now apply lookup_write_other.
Qed.

Lemma console_spoiled name d w : console (spoiled name d w) = console w.
Proof. unfold spoiled. now destruct (lookup name d). Qed.

Lemma clock_spoiled name d w : clock w <= clock (spoiled name d w).
Proof. unfold spoiled. destruct (lookup name d); simpl; lia. Qed.

Lemma find_file_spoiled_other name name' d w :
  photos w = Some d -> name <> name' ->
  find_file name' (spoiled name d w) = find_file name' w.
Proof.
  intros Hp Hne. unfold spoiled. destruct (lookup name d); [| reflexivity].
  now apply find_file_saved_other.
Qed.

Lemma find_file_spoiled_same name d w :
  photos w = Some d ->
  find_file name (spoiled name d w)
  = match find_file name w with
    | Some _ => Some {| contents := []; st_mtime := clock w |}
    | None => None
    end.
Proof.
  intros Hp. unfold spoiled, find_file at 2. rewrite Hp.
  destruct (lookup name d) eqn:Hl.
  - apply find_file_saved_same.
  - unfold find_file. now rewrite Hp.
Qed.

Lemma visited_app a b : visited (a ++ b) = (visited a ++ visited b)%list.
Proof. unfold visited. apply flat_map_app. Qed.

Lemma count_app p a b : count p (a ++ b) = count p a + count p b.
Proof. unfold count. rewrite filter_app, List.length_app. lia. Qed.

Lemma run_events_app w0 w' evs :
  console w' = (console w0 ++ evs)%list -> run_events w0 w' = evs.
Proof.
  intros H. unfold run_events. rewrite H.
  rewrite skipn_app, skipn_all, Nat.sub_diag. reflexivity.
Qed.

End WorldFacts.

(** ** Running the script *)

Section ScriptFacts.
Context {codec : Codec}.

(** [prepare], run: what it returns and prints in each case. *)
Lemma prepare_unfold input_path max_width w :
  prepare input_path max_width w =
  match find_file input_path w with
  | None => (w, Raised (Exception "FileNotFoundError" input_path))
  | Some f =>
      match decode (contents f) with
      | Fail kind msg => (w, Raised (Exception kind msg))
      | Ok original =>
          match normalize original with
          | Fail kind msg => (w, Raised (Exception kind msg))
          | Ok img =>
              if width img >? max_width then
                match new_height_of (width img) (height img) max_width with
                | inl err => (w, Raised (arith_exn err))
                | inr new_height =>
                    match resize img (max_width, new_height) with
                    | Fail kind msg => (w, Raised (Exception kind msg))
                    | Ok img' =>
                        (log (Resized input_path (size original) (size img')) w,
                         Returned img')
                    end
                end
              else (log (NoResize input_path (size img)) w, Returned img)
          end
      end
  end.
Proof.
  unfold prepare, Image_open, read_file, bind.
  destruct (find_file input_path w) as [f |] eqn:Hf; [| reflexivity].
  destruct (decode (contents f)) as [original | kind msg] eqn:Hd; cbn [lift ret raise];
    [| reflexivity].
  destruct (normalize original) as [img | kind msg]; cbn [lift ret raise];
    [| reflexivity].
  destruct (width img >? max_width); [| reflexivity].
  destruct (new_height_of (width img) (height img) max_width) as [err | new_height];
    cbn [lift_arith ret raise]; [reflexivity |].
  destruct (resize img (max_width, new_height)) as [img' | kind msg];
    cbn [lift ret raise]; [| reflexivity].
  rewrite Hf, Hd. reflexivity.
Qed.

(** [optimize_image], run. *)
Lemma optimize_image_unfold input_path output_path max_width quality w :
  optimize_image input_path output_path max_width quality w =
  match prepare input_path max_width w with
  | (w1, Raised (Exception kind msg)) => (log (Error input_path msg) w1, Returned false)
  | (w1, Raised e) => (w1, Raised e)
  | (w1, Returned img) =>
      match photos w1 with
      | None => (log (Error input_path output_path) w1, Returned false)
      | Some d =>
          match encode_webp img quality 6 with
          | Fail kind msg =>
              (log (Error input_path msg) (spoiled output_path d w1), Returned false)
          | Ok data =>
              let w2 := saved output_path data d w1 in
              match find_file input_path w2, find_file output_path w2 with
              | Some fi, Some fo =>
                  if Z.of_nat (List.length (contents fi)) =? 0 then
                    (log (Error input_path "float division by zero") w2, Returned false)
                  else
                    (log (Sizes (Z.of_nat (List.length (contents fi)))
                                (Z.of_nat (List.length (contents fo))))
                         (log (Created output_path) w2), Returned true)
              | None, _ => (log (Error input_path input_path) w2, Returned false)
              | Some _, None => (log (Error input_path output_path) w2, Returned false)
              end
          end
      end
  end.
Proof.
  unfold optimize_image, try_except, bind at 1.
  destruct (prepare input_path max_width w) as [w1 [img | [kind msg | kind]]];
    try reflexivity.
  unfold bind at 1. unfold Image_save.
  destruct (photos w1) as [d |] eqn:Hp; [| reflexivity].
  destruct (encode_webp img quality 6) as [data | kind msg]; [| reflexivity].
  cbv zeta. set (w2 := saved output_path data d w1).
  unfold report_sizes, getsize, read_file, bind.
  destruct (find_file input_path w2) as [fi |]; [| reflexivity].
  cbn [ret]. destruct (find_file output_path w2) as [fo |]; [| reflexivity].
  destruct (Z.of_nat (List.length (contents fi)) =? 0); reflexivity.
Qed.

Lemma silent_nil : silent [].
Proof. repeat split. Qed.

Lemma arith_exn_is_exception err : exists kind msg, arith_exn err = Exception kind msg.
Proof. destruct err; simpl; eauto. Qed.

Lemma prepared_raise input_path w kind msg :
  prepared input_path w w (Raised (Exception kind msg)).
Proof.
  unfold prepared. split; [reflexivity |]. split; [reflexivity |].
  split; [exists []; rewrite app_nil_r; split; [reflexivity | apply silent_nil] |].
  split; discriminate.
Qed.

Lemma prepared_return input_path w e img :
  match e with Resized _ _ _ | NoResize _ _ => True | _ => False end ->
  find_file input_path w <> None ->
  prepared input_path w (log e w) (Returned img).
Proof.
  intros He Hf. unfold prepared. split; [reflexivity |]. split; [reflexivity |].
  split; [exists [e]; split; [reflexivity | destruct e; destruct He; repeat split] |].
  split; [discriminate | intros _ _; exact Hf].
Qed.

(** [prepare] leaves the files and the clock alone, prints at most its
    resize line, and raises nothing but an [Exception]. *)
Lemma prepare_outcome input_path max_width w w1 r :
  prepare input_path max_width w = (w1, r) -> prepared input_path w w1 r.
Proof.
  rewrite prepare_unfold.
  destruct (find_file input_path w) as [f |] eqn:Hf;
    [| intros [= <- <-]; apply prepared_raise].
  assert (Hin : find_file input_path w <> None) by congruence.
  destruct (decode (contents f)) as [original | kind msg];
    [| intros [= <- <-]; apply prepared_raise].
  destruct (normalize original) as [img | kind msg];
    [| intros [= <- <-]; apply prepared_raise].
  destruct (width img >? max_width).
  - destruct (new_height_of (width img) (height img) max_width) as [err | nh].
    + destruct (arith_exn_is_exception err) as (kind & msg & ->).
      intros [= <- <-]. apply prepared_raise.
    + destruct (resize img (max_width, nh)) as [img' | kind msg];
        intros [= <- <-]; [now apply prepared_return | apply prepared_raise].
  - intros [= <- <-]. now apply prepared_return.
Qed.

Ltac console_step Hc :=
  unfold log, saved; cbn [console]; rewrite ?Hc, <- ?app_assoc; simpl; reflexivity.

(** [optimize_image] always returns: [True] after the lines [Created] and
    [Sizes], with the output on disk; [False] after exactly one [Error]
    line.  It writes no file but its output. *)
Lemma optimize_image_outcome input_path output_path max_width quality w :
  exists w' b evs,
    optimize_image input_path output_path max_width quality w = (w', Returned b)
    /\ transformed input_path output_path w w' b evs.
Proof.
  rewrite optimize_image_unfold.
  destruct (prepare input_path max_width w) as [w1 r] eqn:Hprep.
  apply prepare_outcome in Hprep.
  destruct Hprep as (Hp & Hc & (evs1 & Hcons & Hv & Hs & He & Hcr) & Hbase & Hin).
  assert (Hfail : forall msg w2,
    console w2 = console w1 -> touches output_path w w2 ->
    exists w' b evs,
      (log (Error input_path msg) w2, Returned false) = (w', Returned b)
      /\ transformed input_path output_path w w' b evs).
  { intros msg w2 Hc2 Ht.
    exists (log (Error input_path msg) w2), false, (evs1 ++ [Error input_path msg])%list.
    split; [reflexivity |]. unfold transformed.
    rewrite visited_app, !count_app, Hv, Hs, He, Hcr.
    split; [unfold log; cbn [console]; rewrite Hc2, Hcons, <- app_assoc; reflexivity |].
    split; [reflexivity |]. split; [reflexivity |]. split; [reflexivity |].
    split; [reflexivity |]. split; [| split; [exact Ht | discriminate]].
    intros _. exists msg. apply in_or_app. right. now left. }
  assert (Ht1 : touches output_path w w1).
  { unfold touches, find_file. rewrite Hp, Hc. split; [lia | split; auto]. }
  destruct r as [img | [kind msg | kind]];
    [| now apply Hfail | now destruct (Hbase kind)].
  destruct (photos w1) as [d |] eqn:Hd; [| now apply Hfail].
  destruct (encode_webp img quality 6) as [data | kind msg].
  2:{ apply Hfail; [apply console_spoiled |].
      unfold touches. split; [rewrite <- Hc; apply clock_spoiled | split].
      - intros name Hne. rewrite (find_file_spoiled_other _ _ _ _ Hd) by congruence.
        unfold find_file. now rewrite Hd, <- Hp.
      - rewrite (find_file_spoiled_same _ _ _ Hd).
        replace (find_file output_path w1) with (find_file output_path w)
          by (unfold find_file; now rewrite Hd, <- Hp).
        destruct (find_file output_path w) as [fo |]; [right | now left].
        eexists. split; [reflexivity | simpl; lia]. }
  cbv zeta. set (w2 := saved output_path data d w1).
  assert (Ht2 : touches output_path w w2).
  { unfold touches. split; [simpl; lia | split].
    - intros name Hne. unfold w2.
      rewrite (find_file_saved_other _ _ _ _ _ Hd) by congruence.
      unfold find_file. rewrite Hd, <- Hp. reflexivity.
    - right. eexists. split; [apply find_file_saved_same | simpl; lia]. }
  destruct (find_file input_path w2) as [fi |]; [| now apply Hfail].
  unfold w2 at 1. rewrite find_file_saved_same.
  destruct (Z.of_nat (List.length (contents fi)) =? 0); [now apply Hfail |].
  eexists _, true, (evs1 ++ [Created output_path; Sizes _ _])%list.
  split; [reflexivity |]. unfold transformed.
  rewrite visited_app, !count_app, Hv, Hs, He, Hcr.
  split; [unfold w2; console_step Hcons |].
  split; [reflexivity |]. split; [reflexivity |]. split; [reflexivity |].
  split; [reflexivity |]. split; [discriminate |]. split.
  - exact Ht2.
  - intros _. rewrite !find_file_log. unfold w2. rewrite find_file_saved_same.
    eexists. split; [reflexivity | simpl; lia].
Qed.

(** The loop body, run. *)
Lemma process_file_unfold img_file o s w :
  process_file img_file (o, s) w =
  let run :=
    match optimize_image img_file (webp_of img_file) 3000 92
            (log (Processing img_file) w) with
    | (w', Returned true) => (w', Returned (o + 1, s))
    | (w', Returned false) => (w', Returned (o, s))
    | (w', Raised e) => (w', Raised e)
    end in
  match find_file (webp_of img_file) w with
  | Some fo =>
      match find_file img_file w with
      | Some fi =>
          if st_mtime fo >? st_mtime fi
          then (log (Skipping img_file) w, Returned (o, s + 1))
          else run
      | None => (w, Raised (Exception "FileNotFoundError" img_file))
      end
  | None => run
  end.
Proof.
  unfold process_file, path_exists, stat_mtime, read_file, bind, ret, print, webp_of.
  cbv beta.
  destruct (find_file (with_suffix img_file ".webp") w) as [fo |] eqn:Hw;
    cbv beta iota; rewrite ?Hw; cbv beta iota.
  - destruct (find_file img_file w) as [fi |]; cbv beta iota; [| reflexivity].
    destruct (st_mtime fo >? st_mtime fi); cbv beta iota; [reflexivity |].
    destruct (optimize_image img_file (with_suffix img_file ".webp") 3000 92
                (log (Processing img_file) w)) as [w' [[|] | e]]; reflexivity.
  - destruct (optimize_image img_file (with_suffix img_file ".webp") 3000 92
                (log (Processing img_file) w)) as [w' [[|] | e]]; reflexivity.
Qed.

Lemma process_file_skip img_file o s w :
  output_is_newer w img_file = true ->
  process_file img_file (o, s) w = (log (Skipping img_file) w, Returned (o, s + 1)).
Proof.
  unfold output_is_newer. rewrite process_file_unfold. cbv zeta.
  destruct (find_file (webp_of img_file) w) as [fo |]; [| discriminate].
  destruct (find_file img_file w) as [fi |]; [| discriminate].
  now intros ->.
Qed.

Lemma process_file_run img_file o s w :
  find_file img_file w <> None ->
  output_is_newer w img_file = false ->
  process_file img_file (o, s) w =
  match optimize_image img_file (webp_of img_file) 3000 92
          (log (Processing img_file) w) with
  | (w', Returned true) => (w', Returned (o + 1, s))
  | (w', Returned false) => (w', Returned (o, s))
  | (w', Raised e) => (w', Raised e)
  end.
Proof.
  unfold output_is_newer. rewrite process_file_unfold. cbv zeta. intros Hin.
  destruct (find_file (webp_of img_file) w) as [fo |]; [| reflexivity].
  destruct (find_file img_file w) as [fi |]; [| contradiction].
  now intros ->.
Qed.

Lemma evolves_refl_log e w : evolves w (log e w).
Proof. split; [simpl; lia | intros name; left; reflexivity]. Qed.

Lemma evolves_trans w1 w2 w3 : evolves w1 w2 -> evolves w2 w3 -> evolves w1 w3.
Proof.
  intros [Hc1 H1] [Hc2 H2]. split; [lia |]. intros name.
  destruct (H2 name) as [E2 | (Hw & fo & Hfo & Ht)].
  - rewrite E2. apply H1.
  - right. split; [assumption |]. exists fo. split; [assumption | lia].
Qed.

Lemma touches_evolves path w w' :
  endswith path ".webp" = true -> touches path w w' -> evolves w w'.
Proof.
  intros Hw (Hc & Hother & Hpath). split; [assumption |]. intros name.
  destruct (string_dec name path) as [-> | Hne]; [| left; now apply Hother].
  destruct Hpath as [E | (fo & Hfo & Ht)]; [now left | right].
  split; [assumption |]. now exists fo.
Qed.

Lemma evolves_keeps name w w' :
  evolves w w' -> find_file name w <> None -> find_file name w' <> None.
Proof.
  intros [_ H] Hin. destruct (H name) as [E | (_ & fo & Hfo & _)]; congruence.
Qed.

Lemma evolves_output name w w' fo :
  evolves w w' -> find_file name w = Some fo ->
  exists fo', find_file name w' = Some fo'
              /\ (st_mtime fo <= st_mtime fo' \/ clock w <= st_mtime fo').
Proof.
  intros [_ H] Hfo. destruct (H name) as [E | (_ & fo' & Hfo' & Ht)].
  - exists fo. split; [congruence | left; lia].
  - exists fo'. split; [assumption | now right].
Qed.

(** One turn of the loop on a file that is in the directory. *)
Lemma process_file_outcome img_file o s w :
  find_file img_file w <> None ->
  exists w' o' s' evs,
    process_file img_file (o, s) w = (w', Returned (o', s'))
    /\ looped [img_file] w w' o s o' s' evs.
Proof.
  intros Hin. destruct (output_is_newer w img_file) eqn:Hnew.
  - rewrite (process_file_skip _ _ _ _ Hnew).
    exists (log (Skipping img_file) w), o, (s + 1), [Skipping img_file].
    split; [reflexivity |]. unfold looped.
    split; [reflexivity |]. split; [reflexivity |]. split; [reflexivity |].
    split; [cbn; lia |]. split; [reflexivity |]. split; [apply evolves_refl_log |].
    intros f [<- | []]. right. left. now left.
  - rewrite (process_file_run _ _ _ _ Hin Hnew).
    destruct (optimize_image_outcome img_file (webp_of img_file) 3000 92
                (log (Processing img_file) w))
      as (w' & b & evs & -> & Hc & Hv & Hs & He & Hcr & Herr & Ht & Hout).
    assert (Hev : evolves w w').
    { apply evolves_trans with (log (Processing img_file) w);
        [apply evolves_refl_log |].
      eapply touches_evolves; [apply output_endswith_webp | exact Ht]. }
    assert (Hcons : console w' = (console w ++ Processing img_file :: evs)%list).
    { rewrite Hc. unfold log; cbn [console]. now rewrite <- app_assoc. }
    assert (Hvis : visited (Processing img_file :: evs) = [img_file]).
    { change (visited (Processing img_file :: evs))
        with (img_file :: visited evs). now rewrite Hv. }
    assert (Hcnt : forall p, p (Processing img_file) = false ->
              count p (Processing img_file :: evs) = count p evs).
    { intros p Hp. unfold count. cbn [filter]. now rewrite Hp. }
    destruct b.
    + exists w', (o + 1), s, (Processing img_file :: evs).
      split; [reflexivity |]. unfold looped.
      rewrite !Hcnt, Hs, He, Hcr by reflexivity.
      split; [assumption |]. split; [assumption |]. split; [lia |].
      split; [lia |]. split; [reflexivity |]. split; [assumption |].
      intros f [<- | []]. left. destruct (Hout eq_refl) as (fo & Hfo & Hclk).
      exists fo. split; [assumption | exact Hclk].
    + exists w', o, s, (Processing img_file :: evs).
      split; [reflexivity |]. unfold looped.
      rewrite !Hcnt, Hs, He, Hcr by reflexivity.
      split; [assumption |]. split; [assumption |]. split; [lia |].
      split; [lia |]. split; [reflexivity |]. split; [assumption |].
      intros f [<- | []]. right. right. destruct (Herr eq_refl) as (msg & Hmsg).
      exists msg. now right.
Qed.

Lemma evolves_refl w : evolves w w.
Proof. split; [lia | intros name; now left]. Qed.

Lemma looped_nil w o s : looped [] w w o s o s [].
Proof.
  unfold looped. rewrite app_nil_r.
  split; [reflexivity |]. split; [reflexivity |]. split; [cbn; lia |].
  split; [cbn; lia |]. split; [reflexivity |]. split; [apply evolves_refl |].
  intros f [].
Qed.

Lemma looped_cons f rest w w1 w' o s o1 s1 o' s' evs1 evs2 :
  looped [f] w w1 o s o1 s1 evs1 ->
  looped rest w1 w' o1 s1 o' s' evs2 ->
  looped (f :: rest) w w' o s o' s' (evs1 ++ evs2).
Proof.
  intros (Hc1 & Hv1 & Hs1 & Ho1 & Hn1 & He1 & Hf1)
         (Hc2 & Hv2 & Hs2 & Ho2 & Hn2 & He2 & Hf2).
  unfold looped. rewrite visited_app, !count_app, Hv1, Hv2.
  split; [rewrite Hc2, Hc1; now rewrite app_assoc |].
  split; [reflexivity |]. split; [lia |]. split; [lia |].
  split; [cbn [List.length] in *; lia |].
  split; [now apply evolves_trans with w1 |].
  intros g [<- | Hg].
  - destruct (Hf1 f (or_introl eq_refl)) as [(fo & Hfo & Ht) | [Hsk | (msg & Hmsg)]].
    + left. destruct (evolves_output _ _ _ _ He2 Hfo) as (fo' & Hfo' & Hcase).
      exists fo'. split; [assumption |]. destruct He1 as [Hclk _]. lia.
    + right. left. apply in_or_app. now left.
    + right. right. exists msg. apply in_or_app. now left.
  - destruct (Hf2 g Hg) as [(fo & Hfo & Ht) | [Hsk | (msg & Hmsg)]].
    + left. exists fo. split; [assumption |]. destruct He1 as [Hclk _]. lia.
    + right. left. apply in_or_app. now right.
    + right. right. exists msg. apply in_or_app. now right.
Qed.

(** The loop reaches every file: no failure ends it. *)
Lemma for_each_outcome files : forall o s w,
  (forall f, In f files -> find_file f w <> None) ->
  exists w' o' s' evs,
    for_each files (o, s) w = (w', Returned (o', s'))
    /\ looped files w w' o s o' s' evs.
Proof.
  induction files as [| f rest IH]; intros o s w Hin.
  - exists w, o, s, []. split; [reflexivity | apply looped_nil].
  - destruct (process_file_outcome f o s w (Hin f (or_introl eq_refl)))
      as (w1 & o1 & s1 & evs1 & Hrun1 & Hl1).
    destruct (IH o1 s1 w1) as (w' & o' & s' & evs2 & Hrun2 & Hl2).
    { intros g Hg. destruct Hl1 as (_ & _ & _ & _ & _ & Hev & _).
      apply (evolves_keeps _ _ _ Hev). apply Hin. now right. }
    exists w', o', s', (evs1 ++ evs2)%list. split.
    + cbn [for_each]. unfold bind. rewrite Hrun1. exact Hrun2.
    + eapply looped_cons; eassumption.
Qed.

(** [main], run, in a world without the photo directory. *)
Lemma main_absent w :
  photos w = None -> main w = (log DirNotFound w, Returned tt).
Proof.
  intros Hp. unfold main, photos_dir_exists, bind. rewrite Hp. reflexivity.
Qed.

(** [main], run, in a world with the photo directory. *)
Lemma main_unfold w d :
  photos w = Some d ->
  main w =
  match image_files d with
  | [] => (log NoImagesFound w, Returned tt)
  | _ =>
      match for_each (sorted (image_files d)) (0, 0)
              (log (Found (Z.of_nat (List.length (image_files d)))) w) with
      | (w', Returned counts) =>
          (log (Summary (fst counts) (snd counts)) w', Returned tt)
      | (w', Raised e) => (w', Raised e)
      end
  end.
Proof.
  intros Hp. unfold main, photos_dir_exists, iterdir, bind. rewrite Hp.
  cbn [negb]. cbv beta iota. rewrite Hp. cbv beta iota. fold (image_files d).
  destruct (image_files d) as [| f l]; [reflexivity |].
  unfold print at 1. cbv beta iota.
  destruct (for_each (sorted (f :: l)) (0, 0)
              (log (Found (Z.of_nat (List.length (f :: l)))) w)) as [w' [c | e]];
    reflexivity.
Qed.

(** A run over a directory with candidates: the loop reaches each of
    them, in sorted order, and the summary shows its counters. *)
Lemma main_outcome w d :
  photos w = Some d -> image_files d <> [] ->
  exists w' o s evs,
    main w = (log (Summary o s) w', Returned tt)
    /\ looped (sorted (image_files d))
              (log (Found (Z.of_nat (List.length (image_files d)))) w) w' 0 0 o s evs.
Proof.
  intros Hp Hne. rewrite (main_unfold w d Hp).
  destruct (for_each_outcome (sorted (image_files d)) 0 0
              (log (Found (Z.of_nat (List.length (image_files d)))) w))
    as (w' & o & s & evs & Hrun & Hl).
  { intros f Hf. apply (proj1 (sorted_in _ _)) in Hf. unfold image_files in Hf.
    apply filter_In in Hf. destruct Hf as [Hf _].
    rewrite find_file_log. unfold find_file. rewrite Hp. now apply lookup_listed. }
  exists w', o, s, evs. split; [| exact Hl].
  rewrite Hrun. destruct (image_files d); [contradiction | reflexivity].
Qed.

End ScriptFacts.

Section RunFacts.
Context {codec : Codec}.

Lemma log_logged e evs w : log e (logged evs w) = logged (evs ++ [e]) w.
Proof. unfold log, logged; cbn. now rewrite app_assoc. Qed.

(** A loop over files that all have a newer WebP only prints. *)
Lemma for_each_all_skip files : forall o s evs w,
  (forall f, In f files -> output_is_newer w f = true) ->
  for_each files (o, s) (logged evs w)
  = (logged (evs ++ map Skipping files) w,
     Returned (o, s + Z.of_nat (List.length files))).
Proof.
  induction files as [| f rest IH]; intros o s evs w Hall.
  - cbn. rewrite app_nil_r, Z.add_0_r. reflexivity.
  - cbn [for_each]. unfold bind.
    rewrite process_file_skip by (apply (Hall f); now left).
    rewrite log_logged, IH by (intros g Hg; apply Hall; now right).
    rewrite <- app_assoc. cbn [map app List.length].
    do 2 f_equal. f_equal. lia.
Qed.

(** The files a run visits. *)
Lemma main_visits w d :
  photos w = Some d ->
  exists w', main w = (w', Returned tt)
             /\ visited (run_events w w') = sorted (image_files d).
Proof.
  intros Hp. destruct (image_files d) as [| f l] eqn:Hfiles.
  - exists (log NoImagesFound w). rewrite (main_unfold w d Hp), Hfiles.
    split; [reflexivity |]. rewrite (run_events_app w _ [NoImagesFound]) by reflexivity.
    reflexivity.
  - destruct (main_outcome w d Hp) as (w' & o & s & evs & Hrun & Hl);
      [rewrite Hfiles; discriminate |].
    rewrite Hfiles in *. exists (log (Summary o s) w'). split; [exact Hrun |].
    destruct Hl as (Hc & Hv & _).
    rewrite (run_events_app w _ (Found (Z.of_nat (List.length (f :: l))) :: evs ++ [Summary o s])).
    + change (visited (Found (Z.of_nat (List.length (f :: l))) :: evs ++ [Summary o s]))
        with (visited (evs ++ [Summary o s])).
      rewrite visited_app, Hv. apply app_nil_r.
    + unfold log in *; cbn [console] in *. rewrite Hc, <- !app_assoc. reflexivity.
Qed.

Lemma count_nonneg p evs : 0 <= count p evs.
Proof. unfold count. lia. Qed.

End RunFacts.

(** ** Colour normalisation and resizing *)

Section ImageFacts.
Context {codec : Codec}.

Lemma mem_string_true x l : mem_string x l = true <-> In x l.
Proof.
  unfold mem_string. rewrite existsb_exists. split.
  - intros (y & Hy & E). apply String.eqb_eq in E. now subst.
  - intros H. exists x. split; [assumption | apply String.eqb_refl].
Qed.

(** Pasting an RGBA or LA image through its alpha on a white image. *)
Lemma paste_on_white src :
  mem_string (mode src) ["RGBA"; "LA"] = true ->
  paste (Image_new "RGB" (width src, height src) [255; 255; 255]) src
        (if mem_string (mode src) ["RGBA"; "LA"] then Some (last_band src) else None)
  = Ok (over_white src).
Proof.
  intros H. rewrite H. apply mem_string_true in H. unfold paste, result_bind.
  destruct H as [H | [H | []]]; rewrite <- H; cbn -[over_white]; rewrite <- ?H;
    cbn -[over_white]; rewrite !Z.eqb_refl; unfold over_white; rewrite <- ?H;
    reflexivity.
Qed.

Lemma normalize_alpha img :
  mem_string (mode img) ["RGBA"; "LA"] = true ->
  normalize img = Ok (over_white img).
Proof.
  intros H. unfold normalize.
  replace (mem_string (mode img) ["RGBA"; "LA"; "P"]) with true.
  - replace (mode img =? "P")%string with false.
    + cbn [result_bind]. unfold size. now rewrite (paste_on_white img H).
    + apply mem_string_true in H. destruct H as [H | [H | []]]; now rewrite <- H.
  - apply mem_string_true in H. destruct H as [H | [H | []]]; now rewrite <- H.
Qed.

(** A palette image is expanded to RGBA first. *)
Lemma normalize_palette img :
  mode img = "P" ->
  normalize img = result_bind (convert "RGBA" img) (fun src => Ok (over_white src)).
Proof.
  intros H. unfold normalize, convert. rewrite H.
  cbn [mem_string existsb String.eqb Ascii.eqb Bool.eqb orb].
  destruct (convert_data "RGBA" img) as [px | kind msg]; [| reflexivity].
  set (src := {| mode := "RGBA"; width := width img; height := height img;
                 getpixel := px |}).
  change (result_bind
            (paste (Image_new "RGB" (width src, height src) [255; 255; 255]) src
               (if mem_string (mode src) ["RGBA"; "LA"] then Some (last_band src)
                else None)) (fun rgb_img => Ok rgb_img) = Ok (over_white src)).
  now rewrite (paste_on_white src eq_refl).
Qed.

Lemma normalize_other img :
  mem_string (mode img) ["RGBA"; "LA"; "P"; "RGB"] = false ->
  normalize img = convert "RGB" img.
Proof.
  unfold normalize, mem_string. cbn [existsb]. intros H.
  repeat (apply orb_false_iff in H; destruct H as [? H]).
  repeat match goal with E : String.eqb _ _ = false |- _ => rewrite E; clear E end.
  reflexivity.
Qed.

Lemma normalize_rgb img : mode img = "RGB" -> normalize img = Ok img.
Proof. intros H. unfold normalize. rewrite H. reflexivity. Qed.

Lemma blend8_transparent s : blend8 0 255 s = 255.
Proof. unfold blend8, muldiv255. rewrite Z.mul_0_r. reflexivity. Qed.

Lemma over_white_transparent src x y :
  last (getpixel src x y) 0 = 0 -> getpixel (over_white src) x y = [255; 255; 255].
Proof.
  intros H. unfold over_white; cbn [getpixel]. rewrite H.
  destruct (inside src x y); [| reflexivity].
  unfold rgb_bytes. destruct (mode src =? "LA")%string; cbn [blend_bands];
    now rewrite !blend8_transparent.
Qed.

Lemma over_white_bands src x y : List.length (getpixel (over_white src) x y) = 3%nat.
Proof.
  unfold over_white; cbn [getpixel]. destruct (inside src x y); [| reflexivity].
  unfold rgb_bytes. destruct (mode src =? "LA")%string; reflexivity.
Qed.

(** Normalisation keeps the size. *)
Lemma normalize_size img out :
  normalize img = Ok out -> size out = size img.
Proof.
  destruct (mem_string (mode img) ["RGBA"; "LA"; "P"; "RGB"]) eqn:Hm.
  - apply mem_string_true in Hm.
    destruct Hm as [H | [H | [H | [H | []]]]]; symmetry in H.
    + rewrite normalize_alpha by (rewrite H; reflexivity). now intros [= <-].
    + rewrite normalize_alpha by (rewrite H; reflexivity). now intros [= <-].
    + rewrite (normalize_palette img H). unfold convert, result_bind.
      destruct (convert_data "RGBA" img); [| discriminate]. now intros [= <-].
    + rewrite (normalize_rgb img H). now intros [= <-].
  - rewrite (normalize_other img Hm). unfold convert, result_bind.
    destruct (convert_data "RGB" img); [| discriminate]. now intros [= <-].
Qed.

(** The rounded quotient is the floor or the floor plus one, and the floor
    when the quotient is exact. *)
Lemma round_div_floor a b :
  0 < b ->
  (a mod b = 0 -> round_div a b = a / b)
  /\ (round_div a b = a / b \/ round_div a b = a / b + 1).
Proof.
  intros Hb. unfold round_div, Float64.rne. split.
  - intros Hr. rewrite Hr.
    replace (2 * 0 ?= b) with Lt by (symmetry; apply Z.compare_lt_iff; lia).
    reflexivity.
  - destruct (2 * (a mod b) ?= b); [destruct (Z.even (a / b)) | |]; auto.
Qed.

Lemma resize_size img sz img' : resize img sz = Ok img' -> size img' = sz.
Proof.
  unfold resize, result_bind. destruct (resample img (fst sz) (snd sz)); [| discriminate].
  intros [= <-]. now destruct sz.
Qed.

End ImageFacts.

Section TransformFacts.
Context {codec : Codec}.

Lemma normalize_mode img out : normalize img = Ok out -> mode out = "RGB".
Proof.
  destruct (mem_string (mode img) ["RGBA"; "LA"; "P"; "RGB"]) eqn:Hm.
  - apply mem_string_true in Hm.
    destruct Hm as [H | [H | [H | [H | []]]]]; symmetry in H.
    + rewrite normalize_alpha by (rewrite H; reflexivity). now intros [= <-].
    + rewrite normalize_alpha by (rewrite H; reflexivity). now intros [= <-].
    + rewrite (normalize_palette img H). unfold convert, result_bind.
      destruct (convert_data "RGBA" img); [| discriminate]. now intros [= <-].
    + rewrite (normalize_rgb img H). now intros [= <-].
  - rewrite (normalize_other img Hm). unfold convert, result_bind.
    destruct (convert_data "RGB" img); [| discriminate]. now intros [= <-].
Qed.

Lemma resize_mode img sz img' : resize img sz = Ok img' -> mode img' = mode img.
Proof.
  unfold resize, result_bind. destruct (resample img (fst sz) (snd sz)); [| discriminate].
  now intros [= <-].
Qed.

Lemma prepared_photos input_path max_width w w1 img :
  prepare input_path max_width w = (w1, Returned img) ->
  exists d f, photos w = Some d /\ photos w1 = Some d /\ clock w1 = clock w
              /\ find_file input_path w = Some f.
Proof.
  intros H. destruct (prepare_outcome _ _ _ _ _ H) as (Hp & Hc & _ & _ & Hin).
  specialize (Hin img eq_refl).
  destruct (find_file input_path w) as [f |] eqn:Hf; [| contradiction].
  unfold find_file in Hf. destruct (photos w) as [d |] eqn:Hd; [| discriminate].
  exists d, f. repeat split; assumption.
Qed.

Lemma find_file_after_save input_path output_path data d w w1 f :
  input_path <> output_path ->
  photos w = Some d -> photos w1 = Some d -> find_file input_path w = Some f ->
  find_file input_path (saved output_path data d w1) = Some f.
Proof.
  intros Hne Hd Hd1 Hf.
  rewrite (find_file_saved_other _ _ _ _ _ Hd1) by congruence.
  unfold find_file in *. rewrite Hd1. now rewrite Hd in Hf.
Qed.

Lemma length_zero_iff (l : list Byte.byte) :
  (Z.of_nat (List.length l) =? 0) = true <-> l = [].
Proof.
  rewrite Z.eqb_eq. destruct l; simpl; split; intros H; try reflexivity;
    try discriminate; lia.
Qed.

End TransformFacts.

(** * The claims *)

(** C1, as amended.  An image no wider than [max_width] keeps its size.  A
    wider one is resized to the width [max_width] and to the height
    [int(height * (max_width / width))], the product of two correctly
    rounded double-precision operations, truncated: for heights with
    [height * max_width <= 2^51], that is the floor of
    [height * max_width / width] when this quotient is not an integer, and
    the quotient or one less when it is; in both cases it is within one
    pixel of the rounded quotient.  (The library may still refuse the
    resize, a height of zero for one.) *)
Theorem resize_truncates_the_height :
  forall (codec : Codec) (input_path : string) (max_width : Z) (w : world) (f : file)
         (original img : image),
    find_file input_path w = Some f ->
    decode (contents f) = Ok original ->
    normalize original = Ok img ->
    0 < max_width -> 0 < height original ->
    width original <= 2 ^ 1022 -> height original * max_width <= 2 ^ 51 ->
    (width original <= max_width ->
     prepare input_path max_width w
     = (log (NoResize input_path (size original)) w, Returned img)
     /\ size img = size original)
    /\ (max_width < width original ->
        exists new_height,
          new_height_of (width original) (height original) max_width = inr new_height
          /\ ((height original * max_width) mod width original <> 0 ->
              new_height = height original * max_width / width original)
          /\ ((height original * max_width) mod width original = 0 ->
              new_height = height original * max_width / width original
              \/ new_height = height original * max_width / width original - 1)
          /\ Z.abs (new_height
                    - round_div (height original * max_width) (width original)) <= 1
          /\ (forall img',
                 resize img (max_width, new_height) = Ok img' ->
                 prepare input_path max_width w
                 = (log (Resized input_path (size original) (max_width, new_height)) w,
                    Returned img')
                 /\ size img' = (max_width, new_height))).
Proof.
  intros codec input_path max_width w f original img Hf Hd Hn Hmw Hh Hwmax Hbound.
  pose proof (normalize_size original img Hn) as Hsz.
  assert (Hwi : width img = width original) by (now injection Hsz).
  assert (Hhi : height img = height original) by (now injection Hsz).
  split.
  - intros Hle. rewrite prepare_unfold, Hf, Hd, Hn, Hwi.
    destruct (Z.gtb_spec (width original) max_width) as [Hgt | _]; [lia |].
    rewrite Hsz. split; reflexivity.
  - intros Hgt.
    destruct (new_height_of_spec (width original) (height original) max_width
                Hmw Hgt Hwmax Hh Hbound) as (nh & Hnh & Hfl1 & Hfl2).
    exists nh. split; [exact Hnh |]. split; [exact Hfl1 |]. split; [exact Hfl2 |].
    split.
    + destruct (round_div_floor (height original * max_width) (width original)
                  ltac:(lia)) as [Hexact Hnear].
      destruct (Z.eq_dec ((height original * max_width) mod width original) 0)
        as [Hz | Hnz].
      * rewrite (Hexact Hz). destruct (Hfl2 Hz) as [-> | ->]; lia.
      * rewrite (Hfl1 Hnz). destruct Hnear as [-> | ->]; lia.
    + intros img' Hr. pose proof (resize_size _ _ _ Hr) as Hsz'.
      rewrite prepare_unfold, Hf, Hd, Hn, Hwi, Hhi.
      destruct (Z.gtb_spec (width original) max_width) as [_ | Hle]; [| lia].
      rewrite Hnh, Hr, Hsz'. split; reflexivity.
Qed.

Lemma resize_truncates_the_height_witness :
  exists new_height,
    new_height_of 4 5 3 = inr new_height
    /\ Z.abs (new_height - round_div (5 * 3) 4) <= 1.
Proof.
  destruct (proj2 (resize_truncates_the_height RawCodec "wide.png" 3 wide_world
                     _ _ _ eq_refl eq_refl eq_refl
                     ltac:(reflexivity) ltac:(reflexivity)
                     ltac:(vm_compute; discriminate) ltac:(vm_compute; discriminate))
                  ltac:(reflexivity))
    as (nh & Hnh & _ & _ & Habs & _).
  exists nh. split; [exact Hnh | exact Habs].
Defined.

(** C1, as stated, fails: the height is truncated, not rounded.  A 4x5
    picture fitted to the width 3 comes out 3x3, where rounding 3.75 gives
    4; a 4000x1001 picture fitted to the width 3000 gets the height 750,
    where rounding 750.75 gives 751. *)
Lemma height_is_not_rounded :
  ~ (forall (codec : Codec) (input_path : string) (max_width : Z) (w w1 : world)
            (f : file) (original out : image),
        find_file input_path w = Some f ->
        decode (contents f) = Ok original ->
        0 < max_width -> max_width < width original ->
        prepare input_path max_width w = (w1, Returned out) ->
        size out = (max_width,
                    round_div (height original * max_width) (width original)))
  /\ new_height_of 4000 1001 3000 = inr 750
  /\ round_div (1001 * 3000) 4000 = 751.
Proof.
  split; [| split; vm_compute; reflexivity].
  intros H.
  specialize (H RawCodec "wide.png" 3 wide_world
                (fst (@prepare RawCodec "wide.png" 3 wide_world)) _ _
                (match snd (@prepare RawCodec "wide.png" 3 wide_world) with
                 | Returned out => out
                 | Raised _ => Image_new "RGB" (0, 0) []
                 end)
                eq_refl eq_refl ltac:(reflexivity) ltac:(reflexivity) eq_refl).
  vm_compute in H. discriminate H.
Qed.

(** C2, as amended.  An image of mode RGBA or LA is composited through its
    alpha band over an opaque white image, and an image of mode P is
    expanded to RGBA first and then composited: the result is an RGB image
    of the same size, three bands a pixel, in which every fully transparent
    pixel is (255, 255, 255).  An image of any other mode but RGB, the
    other modes with an alpha band among them, is converted directly to
    RGB; an RGB image is left as it is. *)
Theorem alpha_is_flattened_on_white :
  forall (codec : Codec) (img : image),
    (mem_string (mode img) ["RGBA"; "LA"] = true ->
     normalize img = Ok (over_white img))
    /\ (mode img = "P" ->
        normalize img
        = result_bind (convert "RGBA" img) (fun src => Ok (over_white src)))
    /\ (forall src : image,
           mode (over_white src) = "RGB"
           /\ size (over_white src) = size src
           /\ forall x y,
               List.length (getpixel (over_white src) x y) = 3%nat
               /\ (last (getpixel src x y) 0 = 0 ->
                   getpixel (over_white src) x y = [255; 255; 255]))
    /\ (mem_string (mode img) ["RGBA"; "LA"; "P"; "RGB"] = false ->
        normalize img = convert "RGB" img)
    /\ (mode img = "RGB" -> normalize img = Ok img).
Proof.
  intros codec img.
  split; [apply normalize_alpha |]. split; [apply normalize_palette |].
  split; [| split; [apply normalize_other | apply normalize_rgb]].
  intros src. split; [reflexivity |]. split; [reflexivity |].
  intros x y. split; [apply over_white_bands | apply over_white_transparent].
Qed.

Lemma alpha_is_flattened_on_white_witness :
  @normalize RawCodec sample_rgba = Ok (over_white sample_rgba)
  /\ getpixel (over_white sample_rgba) 0 0 = [255; 255; 255].
Proof.
  split.
  - apply (proj1 (alpha_is_flattened_on_white RawCodec sample_rgba)). reflexivity.
  - apply (proj2 (proj2 (proj1 (proj2 (proj2
             (alpha_is_flattened_on_white RawCodec sample_rgba))) sample_rgba)) 0 0).
    reflexivity.
Defined.

(** C2, as stated, fails: an image of mode PA has an alpha band and a
    palette, yet with every codec it is converted directly, and with a codec
    that looks its pixels up in the palette its fully transparent pixel
    comes out in the colour of its palette entry, not in white. *)
Lemma palette_alpha_is_not_flattened :
  ~ (forall (codec : Codec) (img out : image) (x y : Z),
        (mode_has_alpha (mode img) || mode_is_palette (mode img))%bool = true ->
        normalize img = Ok out ->
        mode_has_alpha (mode img) = true -> last (getpixel img x y) 0 = 0 ->
        getpixel out x y = [255; 255; 255])
  /\ (forall codec : Codec, normalize sample_pa = convert "RGB" sample_pa).
Proof.
  split; [| intros codec; reflexivity].
  intros H.
  specialize (H RawCodec sample_pa
                {| mode := "RGB"; width := 1; height := 1;
                   getpixel := fun x y => let i := nth 0 (getpixel sample_pa x y) 0 in
                                          [i; i; i] |}
                0 0 eq_refl eq_refl eq_refl eq_refl).
  discriminate H.
Qed.

(** C3.  The loop skips a candidate exactly when its WebP exists and is
    strictly newer: the skip counter then goes up by one and the world
    only gains the [Skipping] line, and otherwise [optimize_image] is
    called.  When every candidate has a newer WebP, the run skips them all:
    the summary shows no optimised file and as many skipped files as there
    are candidates, and no file is written. *)
Theorem skip_iff_newer_output :
  forall (codec : Codec),
    (forall (img_file : string) (o s : Z) (w : world),
        find_file img_file w <> None ->
        ((exists w', process_file img_file (o, s) w = (w', Returned (o, s + 1)))
         <-> output_is_newer w img_file = true)
        /\ (output_is_newer w img_file = true ->
            process_file img_file (o, s) w
            = (log (Skipping img_file) w, Returned (o, s + 1)))
        /\ (output_is_newer w img_file = false ->
            exists w' b,
              optimize_image img_file (webp_of img_file) 3000 92
                (log (Processing img_file) w) = (w', Returned b)
              /\ process_file img_file (o, s) w
                 = (w', Returned (if b then (o + 1, s) else (o, s)))))
    /\ (forall (w : world) (d : directory),
           photos w = Some d -> image_files d <> [] ->
           (forall f, In f (image_files d) -> output_is_newer w f = true) ->
           let n := Z.of_nat (List.length (image_files d)) in
           main w
           = (logged (Found n :: map Skipping (sorted (image_files d)) ++ [Summary 0 n]) w,
              Returned tt)).
Proof.
  intros codec. split.
  - intros img_file o s w Hin.
    assert (Hrun : output_is_newer w img_file = false ->
            exists w' b,
              optimize_image img_file (webp_of img_file) 3000 92
                (log (Processing img_file) w) = (w', Returned b)
              /\ process_file img_file (o, s) w
                 = (w', Returned (if b then (o + 1, s) else (o, s)))).
    { intros Hnew. rewrite (process_file_run _ _ _ _ Hin Hnew).
      destruct (optimize_image_outcome img_file (webp_of img_file) 3000 92
                  (log (Processing img_file) w)) as (w' & b & evs & -> & _).
      exists w', b. split; [reflexivity | now destruct b]. }
    split; [| split; [apply process_file_skip | exact Hrun]].
    split.
    + intros (w' & Hskip). destruct (output_is_newer w img_file) eqn:Hnew;
        [reflexivity | exfalso].
      destruct (Hrun eq_refl) as (w'' & b & _ & Hp). rewrite Hp in Hskip.
      destruct b; injection Hskip; intros; lia.
    + intros Hnew. eexists. now apply process_file_skip.
  - intros w d Hp Hne Hall n. rewrite (main_unfold w d Hp).
    change (log (Found (Z.of_nat (List.length (image_files d)))) w)
      with (logged [Found n] w).
    rewrite for_each_all_skip
      by (intros f Hf; apply Hall; now apply (proj1 (sorted_in _ _))).
    rewrite sorted_length. fold n. cbn [fst snd]. rewrite log_logged.
    destruct (image_files d); [contradiction |].
    rewrite Z.add_0_l, <- app_assoc. reflexivity.
Qed.

Lemma skip_iff_newer_output_witness :
  (@process_file RawCodec "a.jpg" (0, 0) sample_world
   = (log (Skipping "a.jpg") sample_world, Returned (0, 0 + 1)))
  /\ @main RawCodec settled_world
     = (logged [Found 2; Skipping "a.jpg"; Skipping "b.png"; Summary 0 2] settled_world,
        Returned tt).
Proof.
  split.
  - apply (proj1 (skip_iff_newer_output RawCodec) "a.jpg" 0 0 sample_world).
    + discriminate.
    + reflexivity.
  - apply (proj2 (skip_iff_newer_output RawCodec) settled_world
             [ ("b.png", raw_file [1; 1; 1;  9; 9; 9; 0] 5);
               ("b.webp", raw_file [0; 1; 1] 9);
               ("a.webp", raw_file [0; 4; 2] 8);
               ("a.jpg", raw_file [42] 3) ]).
    + reflexivity.
    + discriminate.
    + intros f [<- | [<- | []]]; reflexivity.
Defined.

(** C4, as amended.  [main] returns normally, and when it does every
    candidate that was last modified before the run started is accounted
    for: its WebP exists and is strictly newer, or the run printed that it
    skipped the file, or that it failed on it.  This holds file by file,
    whatever the other candidates of the directory are dated. *)
Theorem candidates_are_accounted_for :
  forall (codec : Codec) (w : world) (d : directory),
    photos w = Some d ->
    exists w', main w = (w', Returned tt)
               /\ forall f fi, In f (image_files d) -> find_file f w = Some fi ->
                               st_mtime fi < clock w -> accounted_for w w' f.
Proof.
  intros codec w d Hp.
  destruct (image_files d) as [| f0 l] eqn:Hfiles.
  - exists (log NoImagesFound w). rewrite (main_unfold w d Hp), Hfiles.
    split; [reflexivity | intros f fi []].
  - destruct (main_outcome w d Hp) as (w' & o & s & evs & Hrun & Hl);
      [rewrite Hfiles; discriminate |].
    rewrite Hfiles in Hl. exists (log (Summary o s) w'). split; [exact Hrun |].
    destruct Hl as (Hc & _ & _ & _ & _ & Hev & Hacc).
    set (n := Z.of_nat (List.length (f0 :: l))) in *.
    assert (Hevents : run_events w (log (Summary o s) w')
                      = (Found n :: evs ++ [Summary o s])%list).
    { apply run_events_app. unfold log in *; cbn [console] in *.
      rewrite Hc, <- !app_assoc. reflexivity. }
    intros f fi Hf Hfi Hpast. unfold accounted_for. rewrite Hevents, !find_file_log.
    assert (Hcand : is_image_file f = true).
    { rewrite <- Hfiles in Hf. unfold image_files in Hf.
      now apply filter_In in Hf. }
    assert (Hkept : find_file f w' = Some fi).
    { destruct Hev as [_ Hev]. destruct (Hev f) as [E | (Hw & _)].
      - rewrite E, find_file_log. exact Hfi.
      - rewrite (image_file_not_webp f Hcand) in Hw. discriminate. }
    destruct (Hacc f (proj2 (sorted_in f (f0 :: l)) Hf))
      as [(fo & Hfo & Ht) | [Hsk | (msg & Hmsg)]].
    + left. exists fo, fi. split; [exact Hfo |]. split; [exact Hkept |].
      cbn [log clock] in Ht. lia.
    + right. left. right. apply in_or_app. now left.
    + right. right. exists msg. right. apply in_or_app. now left.
Qed.

Lemma candidates_are_accounted_for_witness :
  exists w', @main RawCodec mixed_world = (w', Returned tt)
             /\ forall f fi, In f (image_files mixed_dir) ->
                             find_file f mixed_world = Some fi ->
                             st_mtime fi < clock mixed_world ->
                             accounted_for mixed_world w' f.
Proof.
  apply (candidates_are_accounted_for RawCodec mixed_world mixed_dir).
  reflexivity.
Defined.

(** C4, as stated, fails: a candidate whose modification time lies after
    the run is converted, but its WebP is stamped with the time of the run
    and is not newer; the file is neither skipped nor reported as failed. *)
Lemma future_input_is_not_accounted_for :
  ~ (forall (codec : Codec) (w w' : world) (d : directory),
        photos w = Some d -> main w = (w', Returned tt) ->
        forall f, In f (image_files d) -> accounted_for w w' f).
Proof.
  intros H.
  specialize (H RawCodec future_world (fst (@main RawCodec future_world)) _
                eq_refl eq_refl "a.jpg" (or_introl eq_refl)).
  destruct H as [(fo & fi & Hfo & Hfi & Hlt) | [Hsk | (msg & Hmsg)]].
  - vm_compute in Hfo, Hfi. injection Hfo as <-. injection Hfi as <-.
    cbn in Hlt. lia.
  - vm_compute in Hsk. repeat destruct Hsk as [Hsk | Hsk]; try discriminate Hsk.
    exact Hsk.
  - vm_compute in Hmsg. repeat destruct Hmsg as [Hmsg | Hmsg]; try discriminate Hmsg.
    exact Hmsg.
Qed.

(** C5.  A failing file does not end the run: [main] returns normally
    after it has visited every candidate, in sorted order; the files
    created, the files skipped and the [Error] lines add up to the number
    of candidates, and the summary shows the first two numbers as the
    optimised and the skipped count.  A turn of the loop that prints an
    [Error] line leaves both counters as they were. *)
Theorem failure_does_not_stop_the_batch :
  forall (codec : Codec),
    (forall (w : world) (d : directory),
        photos w = Some d ->
        exists w',
          main w = (w', Returned tt)
          /\ visited (run_events w w') = sorted (image_files d)
          /\ count is_created (run_events w w') + count is_skip (run_events w w')
             + count is_error (run_events w w')
             = Z.of_nat (List.length (image_files d))
          /\ (image_files d <> [] ->
              last (run_events w w') DirNotFound
              = Summary (count is_created (run_events w w'))
                        (count is_skip (run_events w w'))))
    /\ (forall (img_file : string) (o s : Z) (w : world),
           find_file img_file w <> None ->
           exists w' o' s',
             process_file img_file (o, s) w = (w', Returned (o', s'))
             /\ (0 < count is_error (run_events w w') -> o' = o /\ s' = s)).
Proof.
  intros codec. split.
  - intros w d Hp. destruct (image_files d) as [| f0 l] eqn:Hfiles.
    + exists (log NoImagesFound w). rewrite (main_unfold w d Hp), Hfiles.
      rewrite (run_events_app w _ [NoImagesFound]) by reflexivity.
      split; [reflexivity |]. split; [reflexivity |]. split; [reflexivity |].
      intros H. now destruct H.
    + destruct (main_outcome w d Hp) as (w' & o & s & evs & Hrun & Hl);
        [rewrite Hfiles; discriminate |].
      rewrite Hfiles in Hl. destruct Hl as (Hc & Hv & Hs & Ho & Hn & _).
      set (n := Z.of_nat (List.length (f0 :: l))) in *.
      exists (log (Summary o s) w'). split; [exact Hrun |].
      rewrite (run_events_app w _ (Found n :: evs ++ [Summary o s])).
      * assert (Hcnt : forall p, p (Found n) = false -> p (Summary o s) = false ->
                  count p (Found n :: evs ++ [Summary o s]) = count p evs).
        { intros p H1 H2. change (Found n :: evs ++ [Summary o s])%list
            with ([Found n] ++ evs ++ [Summary o s])%list.
          rewrite !count_app. unfold count at 1 3. cbn [filter]. rewrite H1, H2.
          cbn. lia. }
        rewrite !Hcnt by reflexivity.
        change (visited (Found n :: evs ++ [Summary o s]))
          with (visited (evs ++ [Summary o s])).
        rewrite visited_app, Hv.
        split; [apply app_nil_r |]. split.
        -- rewrite sorted_length in Hn. fold n in Hn. lia.
        -- intros _. change (Found n :: evs ++ [Summary o s])%list
             with ((Found n :: evs) ++ [Summary o s])%list.
           rewrite last_last. f_equal; lia.
      * unfold log in *; cbn [console] in *. rewrite Hc, <- !app_assoc. reflexivity.
  - intros img_file o s w Hin.
    destruct (process_file_outcome img_file o s w Hin)
      as (w' & o' & s' & evs & Hrun & Hc & Hv & Hs & Ho & Hn & _).
    exists w', o', s'. split; [exact Hrun |].
    rewrite (run_events_app _ _ _ Hc). cbn [List.length Z.of_nat Pos.of_succ_nat] in Hn.
    pose proof (count_nonneg is_skip evs). pose proof (count_nonneg is_created evs).
    lia.
Qed.

Lemma failure_does_not_stop_the_batch_witness :
  exists w',
    @main RawCodec sample_world = (w', Returned tt)
    /\ visited (run_events sample_world w') = sorted (image_files sample_dir)
    /\ count is_created (run_events sample_world w')
       + count is_skip (run_events sample_world w')
       + count is_error (run_events sample_world w')
       = Z.of_nat (List.length (image_files sample_dir))
    /\ (image_files sample_dir <> [] ->
        last (run_events sample_world w') DirNotFound
        = Summary (count is_created (run_events sample_world w'))
                  (count is_skip (run_events sample_world w'))).
Proof.
  apply (proj1 (failure_does_not_stop_the_batch RawCodec) sample_world sample_dir).
  reflexivity.
Defined.

(** C6.  Whatever happens inside [optimize_image], it returns: no exception
    passes it.  It reports exactly one [Error] line when it returns [False]
    and none when it returns [True]; and when decoding, converting,
    resizing or encoding fails, it returns [False] after printing the
    message of that failure.  No file but the output has changed then, and
    the output only when it is the encoder that failed: an output that was
    there before is left empty, stamped with the time of the call. *)
Theorem transform_failure_is_contained :
  forall (codec : Codec) (input_path output_path : string) (max_width quality : Z)
         (w : world),
    (exists w' b,
        optimize_image input_path output_path max_width quality w = (w', Returned b)
        /\ count is_error (run_events w w') = (if b then 0 else 1))
    /\ (forall kind msg st,
           stage_failure input_path max_width quality w kind msg st ->
           exists w1,
             optimize_image input_path output_path max_width quality w
             = (log (Error input_path msg) w1, Returned false)
             /\ (forall name, name <> output_path ->
                              find_file name w1 = find_file name w)
             /\ find_file output_path w1
                = output_after_failure st (clock w) (find_file output_path w)
             /\ (st <> Encoding -> photos w1 = photos w /\ clock w1 = clock w)).
Proof.
  intros codec input_path output_path max_width quality w. split.
  - destruct (optimize_image_outcome input_path output_path max_width quality w)
      as (w' & b & evs & Hrun & Hc & _ & _ & He & _).
    exists w', b. split; [exact Hrun |]. now rewrite (run_events_app _ _ _ Hc).
  - intros kind msg st Hfail. rewrite optimize_image_unfold.
    destruct Hfail as [f Hf Hd | f original Hf Hd Hn
                      | f original img nh Hf Hd Hn Hw Hh Hr | w1 img Hp He].
    + rewrite prepare_unfold, Hf, Hd. exists w. now repeat split.
    + rewrite prepare_unfold, Hf, Hd, Hn. exists w. now repeat split.
    + rewrite prepare_unfold, Hf, Hd, Hn, Hw, Hh, Hr. exists w. now repeat split.
    + rewrite Hp.
      destruct (prepared_photos _ _ _ _ _ Hp) as (d & f & Hd & Hd1 & Hc & _).
      rewrite Hd1, He. exists (spoiled output_path d w1).
      assert (Hsame : forall name, find_file name w1 = find_file name w)
        by (intros name; unfold find_file; now rewrite Hd, Hd1).
      split; [reflexivity |]. split; [| split].
      * intros name Hne.
        rewrite (find_file_spoiled_other _ _ _ _ Hd1) by congruence. apply Hsame.
      * rewrite (find_file_spoiled_same _ _ _ Hd1), Hsame, Hc.
        now destruct (find_file output_path w).
      * intros H. now destruct H.
Qed.

Lemma transform_failure_is_contained_witness :
  exists w1,
    @optimize_image RawCodec "tall.png" "tall.webp" 3000 92 tall_world
    = (log (Error "tall.png"
                  "encoding error 5: Image size exceeds WebP limit of 16383 pixels")
           w1,
       Returned false)
    /\ (forall name, name <> "tall.webp" ->
                     find_file name w1 = find_file name tall_world)
    /\ find_file "tall.webp" w1
       = output_after_failure Encoding (clock tall_world)
                              (find_file "tall.webp" tall_world)
    /\ (Encoding <> Encoding ->
        photos w1 = photos tall_world /\ clock w1 = clock tall_world).
Proof.
  apply (proj2 (transform_failure_is_contained RawCodec "tall.png" "tall.webp" 3000 92
                  tall_world) "ValueError" _ Encoding).
  apply (encode_fails (codec := RawCodec) _ _ _ _ _ _
           (fst (@prepare RawCodec "tall.png" 3000 tall_world)) tall_sample).
  - vm_compute. reflexivity.
  - vm_compute. reflexivity.
Defined.

(** C7.  When the photo directory does not exist, [main] prints its "not
    found" line and returns normally: nothing is enumerated, transformed or
    written, the clock does not move, and no counter is ever reported. *)
Theorem missing_directory_aborts :
  forall (codec : Codec) (w : world),
    photos w = None ->
    main w = (log DirNotFound w, Returned tt)
    /\ run_events w (fst (main w)) = [DirNotFound]
    /\ photos (fst (main w)) = None
    /\ clock (fst (main w)) = clock w.
Proof.
  intros codec w Hp. rewrite (main_absent w Hp). cbn [fst].
  split; [reflexivity |]. split; [| split; [exact Hp | reflexivity]].
  apply run_events_app. reflexivity.
Qed.

Lemma missing_directory_aborts_witness :
  photos absent_world = None
  /\ @main RawCodec absent_world = (log DirNotFound absent_world, Returned tt).
Proof.
  split; [reflexivity |].
  apply (missing_directory_aborts RawCodec absent_world). reflexivity.
Defined.

(** C8.  Two runs over the same set of candidates visit the same files in
    the same order, whatever the order in which the directory lists them:
    the order of their names, character by character. *)
Theorem run_order_is_sorted :
  forall (codec : Codec) (w1 w2 : world) (d1 d2 : directory),
    photos w1 = Some d1 -> photos w2 = Some d2 ->
    Permutation (image_files d1) (image_files d2) ->
    exists w1' w2',
      main w1 = (w1', Returned tt) /\ main w2 = (w2', Returned tt)
      /\ visited (run_events w1 w1') = visited (run_events w2 w2')
      /\ visited (run_events w1 w1') = sorted (image_files d1)
      /\ Permutation (image_files d1) (visited (run_events w1 w1'))
      /\ StronglySorted path_le (visited (run_events w1 w1')).
Proof.
  intros codec w1 w2 d1 d2 Hp1 Hp2 Hperm.
  destruct (main_visits w1 d1 Hp1) as (w1' & Hrun1 & Hv1).
  destruct (main_visits w2 d2 Hp2) as (w2' & Hrun2 & Hv2).
  exists w1', w2'. rewrite Hv1, Hv2.
  split; [exact Hrun1 |]. split; [exact Hrun2 |].
  split; [now apply sorted_of_permutation |]. split; [reflexivity |].
  split; [apply sorted_perm | apply sorted_strongly].
Qed.

Lemma run_order_is_sorted_witness :
  exists w1' w2',
    @main RawCodec sample_world = (w1', Returned tt)
    /\ @main RawCodec shuffled_world = (w2', Returned tt)
    /\ visited (run_events sample_world w1') = visited (run_events shuffled_world w2')
    /\ visited (run_events sample_world w1') = sorted (image_files sample_dir)
    /\ Permutation (image_files sample_dir) (visited (run_events sample_world w1'))
    /\ StronglySorted path_le (visited (run_events sample_world w1')).
Proof.
  apply (run_order_is_sorted RawCodec sample_world shuffled_world
           sample_dir (rev sample_dir)).
  - reflexivity.
  - reflexivity.
  - change (image_files (rev sample_dir)) with (rev (image_files sample_dir)).
    apply Permutation_rev.
Defined.

(** C9, as amended.  [optimize_image] is not atomic on error.  When the
    encoder fails on an image whose output file exists already, as it does
    on a picture taller than a WebP can be, the call returns [False] after
    its [Error] line and the earlier output is left empty, stamped with the
    time of the call: a failed outcome does not mean an untouched output.
    Every other file is as it was. *)
Theorem failed_transform_may_spoil_output :
  forall (codec : Codec) (input_path output_path : string) (max_width quality : Z)
         (w w1 : world) (img : image) (kind msg : string) (fo : file),
    prepare input_path max_width w = (w1, Returned img) ->
    encode_webp img quality 6 = Fail kind msg ->
    find_file output_path w = Some fo ->
    exists w',
      optimize_image input_path output_path max_width quality w = (w', Returned false)
      /\ In (Error input_path msg) (run_events w w')
      /\ find_file output_path w' = Some {| contents := []; st_mtime := clock w |}
      /\ (contents fo <> [] -> find_file output_path w' <> find_file output_path w)
      /\ (forall name, name <> output_path -> find_file name w' = find_file name w).
Proof.
  intros codec input_path output_path max_width quality w w1 img kind msg fo
         Hprep Henc Hfo.
  destruct (prepared_photos _ _ _ _ _ Hprep) as (d & f & Hd & Hd1 & Hc & _).
  pose proof (prepare_outcome _ _ _ _ _ Hprep) as (_ & _ & (evs & Hcons & _) & _).
  assert (Hsame : forall name, find_file name w1 = find_file name w)
    by (intros name; unfold find_file; now rewrite Hd, Hd1).
  exists (log (Error input_path msg) (spoiled output_path d w1)).
  rewrite optimize_image_unfold, Hprep, Hd1, Henc.
  split; [reflexivity |]. split; [| split; [| split]].
  - rewrite (run_events_app w _ (evs ++ [Error input_path msg])).
    + apply in_or_app. right. now left.
    + unfold log; cbn [console]. rewrite console_spoiled, Hcons, <- app_assoc.
      reflexivity.
  - rewrite find_file_log, (find_file_spoiled_same _ _ _ Hd1), Hsame, Hfo, Hc.
    reflexivity.
  - intros Hne.
    rewrite find_file_log, (find_file_spoiled_same _ _ _ Hd1), Hsame, Hfo.
    intros [= E]. destruct fo as [data t]. cbn [contents] in Hne.
    injection E as E _. now symmetry in E.
  - intros name Hne. rewrite find_file_log.
    rewrite (find_file_spoiled_other _ _ _ _ Hd1) by congruence. apply Hsame.
Qed.

Lemma failed_transform_may_spoil_output_witness :
  exists w',
    @optimize_image RawCodec "tall.png" "tall.webp" 3000 92 tall_world
    = (w', Returned false)
    /\ In (Error "tall.png"
                 "encoding error 5: Image size exceeds WebP limit of 16383 pixels")
          (run_events tall_world w')
    /\ find_file "tall.webp" w' = Some {| contents := []; st_mtime := clock tall_world |}
    /\ (contents (raw_file [0; 1; 9] 4) <> [] ->
        find_file "tall.webp" w' <> find_file "tall.webp" tall_world)
    /\ (forall name, name <> "tall.webp" ->
                     find_file name w' = find_file name tall_world).
Proof.
  apply (failed_transform_may_spoil_output RawCodec "tall.png" "tall.webp" 3000 92
           tall_world (fst (@prepare RawCodec "tall.png" 3000 tall_world))
           tall_sample "ValueError").
  - vm_compute. reflexivity.
  - vm_compute. reflexivity.
  - reflexivity.
Defined.

(** C9, as stated, fails for a decoder that refuses an empty file, as
    Pillow's does: once the save step has succeeded no later step raises,
    because the original, having been decoded, has a byte, and the size
    report never divides by zero.  No call whose save succeeded returns
    [False], whether the output is another file than the input or the
    input itself, overwritten with the bytes of the encoder. *)
Lemma save_is_not_followed_by_failure :
  ~ exists (codec : Codec) (input_path output_path : string) (max_width quality : Z)
           (w w1 w' : world) (img : image) (data : list Byte.byte),
      (forall img0, decode [] <> Ok img0)
      /\ (input_path <> output_path \/ data <> [])
      /\ prepare input_path max_width w = (w1, Returned img)
      /\ encode_webp img quality 6 = Ok data
      /\ optimize_image input_path output_path max_width quality w
         = (w', Returned false).
Proof.
  intros (codec & input_path & output_path & max_width & quality & w & w1 & w'
          & img & data & Hempty & Hne & Hprep & Henc & Hrun).
  destruct (prepared_photos _ _ _ _ _ Hprep) as (d & f & Hd & Hd1 & Hc & Hf).
  assert (Hbytes : contents f <> []).
  { intros E. rewrite prepare_unfold, Hf, E in Hprep.
    destruct (decode []) as [original | kind msg] eqn:Hdec; [| discriminate Hprep].
    now apply (Hempty original). }
  rewrite optimize_image_unfold, Hprep, Hd1, Henc in Hrun. cbv zeta in Hrun.
  destruct (String.eqb_spec input_path output_path) as [E | Hdiff].
  - subst output_path. destruct Hne as [Hne | Hdata]; [now destruct Hne |].
    rewrite find_file_saved_same in Hrun. cbn [contents] in Hrun.
    destruct (Z.of_nat (List.length data) =? 0) eqn:Hz; [| discriminate Hrun].
    apply length_zero_iff in Hz. contradiction.
  - rewrite (find_file_after_save _ _ data d w w1 f Hdiff Hd Hd1 Hf) in Hrun.
    rewrite find_file_saved_same in Hrun.
    destruct (Z.of_nat (List.length (contents f)) =? 0) eqn:Hz; [| discriminate Hrun].
    apply length_zero_iff in Hz. contradiction.
Qed.

(** C10.  The second conjunct of the candidate filter is redundant: the
    filter with it and the filter without it agree on every file name and
    so select the same files of every directory, because no name has one
    of the image extensions and ends in [.webp]. *)
Theorem webp_conjunct_redundant :
  (forall name : string, is_image_file name = has_image_extension name)
  /\ (forall d : directory, image_files d = filter has_image_extension (map fst d))
  /\ (forall name : string,
         (has_image_extension name && endswith name ".webp")%bool = false).
Proof.
  assert (Hext : forall name, is_image_file name = has_image_extension name).
  { intros name. unfold is_image_file. fold (has_image_extension name).
    destruct (endswith name ".webp") eqn:E.
    - rewrite (webp_has_no_image_extension name E). reflexivity.
    - apply andb_true_r. }
  split; [exact Hext |]. split.
  - intros d. unfold image_files. apply filter_ext. exact Hext.
  - intros name. destruct (endswith name ".webp") eqn:E.
    + rewrite (webp_has_no_image_extension name E). reflexivity.
    + apply andb_false_r.
Qed.

(** * Further properties *)

(** ** The candidate filter and the output name *)

Section NameFacts.

Lemma lower_ascii_dot c : Ascii.eqb (lower_ascii c) "."%char = Ascii.eqb c "."%char.
Proof. destruct c as [[] [] [] [] [] [] [] []]; reflexivity. Qed.

Lemma lower_ascii_idem c : lower_ascii (lower_ascii c) = lower_ascii c.
Proof. destruct c as [[] [] [] [] [] [] [] []]; reflexivity. Qed.

Lemma lower_idem s : lower (lower s) = lower s.
Proof.
  induction s as [| c s IH]; simpl; [reflexivity |].
  now rewrite lower_ascii_idem, IH.
Qed.

Lemma length_lower s : String.length (lower s) = String.length s.
Proof. induction s as [| c s IH]; simpl; [reflexivity | now rewrite IH]. Qed.

Lemma rfind_lower s : rfind "."%char (lower s) = rfind "."%char s.
Proof.
  induction s as [| c s IH]; simpl; [reflexivity |].
  now rewrite IH, lower_ascii_dot.
Qed.

Lemma rfind_app c a b :
  rfind c (a ++ b) = if 0 <=? rfind c b then len a + rfind c b else rfind c a.
Proof.
  unfold len. induction a as [| x a IH].
  - cbn [append rfind String.length]. destruct (0 <=? rfind c b) eqn:E.
    + lia.
    + apply Z.leb_gt in E. assert (H : rfind c b >= -1).
      { clear. induction b as [| y b IH]; simpl; [lia |].
        destruct (0 <=? rfind c b); [lia |]. destruct (Ascii.eqb y c); lia. }
      simpl. lia.
  - cbn [append rfind String.length]. rewrite IH.
    destruct (0 <=? rfind c b) eqn:E.
    + apply Z.leb_le in E.
      replace (0 <=? Z.of_nat (String.length a) + rfind c b) with true
        by (symmetry; apply Z.leb_le; lia).
      lia.
    + reflexivity.
Qed.

Lemma length_substring s : forall n m,
  String.length (substring n m s) = Nat.min m (String.length s - n).
Proof.
  induction s as [| c s IH]; intros n m.
  - destruct n, m; reflexivity.
  - destruct n as [| n]; simpl.
    + destruct m as [| m]; simpl; [reflexivity |]. rewrite IH. lia.
    + apply IH.
Qed.

Lemma append_empty_r s : (s ++ "")%string = s.
Proof. induction s as [| c s IH]; simpl; [reflexivity | now rewrite IH]. Qed.

Lemma string_app_inv_tail a : forall b c, (a ++ c)%string = (b ++ c)%string -> a = b.
Proof.
  induction a as [| x a IH]; intros [| y b] c H.
  - reflexivity.
  - exfalso. apply (f_equal String.length) in H.
    cbn [append String.length] in H. rewrite string_length_app in H. lia.
  - exfalso. apply (f_equal String.length) in H.
    cbn [append String.length] in H. rewrite string_length_app in H. lia.
  - cbn [append] in H. injection H as -> H. f_equal. now apply IH with c.
Qed.

(** The suffix is the empty string, or the part of the name from a dot that
    is neither its first nor its last character. *)
Lemma suffix_cases name :
  suffix name = ""
  \/ exists i, 0 < i < len name - 1 /\ suffix name = slice_from i name
               /\ len (suffix name) = len name - i.
Proof.
  unfold suffix. destruct ((0 <? rfind "."%char name)
                           && (rfind "."%char name <? len name - 1))%bool eqn:E.
  - right. apply andb_true_iff in E. destruct E as [E1 E2].
    apply Z.ltb_lt in E1. apply Z.ltb_lt in E2.
    exists (rfind "."%char name). split; [lia |]. split; [reflexivity |].
    unfold len, slice_from in *. rewrite length_substring. lia.
  - now left.
Qed.

(** A name is its stem followed by its suffix. *)
Lemma stem_suffix name : name = (stem name ++ suffix name)%string.
Proof.
  unfold stem. destruct (suffix_cases name) as [E | (i & Hi & E & L)].
  - rewrite E. change (len "") with 0. rewrite Z.sub_0_r, append_empty_r.
    unfold slice_to, len. rewrite Nat2Z.id. symmetry. apply substring_all.
  - rewrite L, E. replace (len name - (len name - i)) with i by lia.
    unfold slice_to, slice_from, len in *. apply substring_split. lia.
Qed.

Lemma stem_nonempty name : suffix name <> "" -> stem name <> "".
Proof.
  intros Hs. unfold stem. destruct (suffix_cases name) as [E | (i & Hi & E & L)];
    [contradiction |].
  rewrite L. replace (len name - (len name - i)) with i by lia.
  intros H. apply (f_equal String.length) in H.
  unfold slice_to, len in *. rewrite length_substring in H. simpl in H. lia.
Qed.

(** The suffix of a stem followed by an image extension is that extension. *)
Lemma suffix_of_image_name st ext :
  st <> "" -> mem_string (lower ext) lower_extensions = true ->
  suffix (st ++ ext) = ext.
Proof.
  intros Hst Hext.
  assert (Hfacts : rfind "."%char ext = 0 /\ (2 <= String.length ext)%nat).
  { rewrite <- rfind_lower, <- length_lower. unfold lower_extensions in Hext.
    apply mem_string_true in Hext.
    destruct Hext as [E | [E | [E | []]]]; rewrite <- E; split; simpl; lia. }
  destruct Hfacts as [Hr Hl].
  unfold suffix. rewrite rfind_app, Hr. cbn [Z.leb Z.compare]. rewrite Z.add_0_r.
  assert (Hlen : (0 < String.length st)%nat) by (destruct st; simpl; [contradiction | lia]).
  unfold len. rewrite string_length_app.
  replace (0 <? Z.of_nat (String.length st)) with true
    by (symmetry; apply Z.ltb_lt; lia).
  replace (Z.of_nat (String.length st)
           <? Z.of_nat (String.length st + String.length ext) - 1) with true
    by (symmetry; apply Z.ltb_lt; lia).
  cbn [andb]. unfold slice_from. rewrite Nat2Z.id.
  apply substring_app_r.
Qed.

Lemma lower_substring s : forall n m,
  lower (substring n m s) = substring n m (lower s).
Proof.
  induction s as [| c s IH]; intros n m.
  - destruct n, m; reflexivity.
  - destruct n as [| n]; simpl.
    + destruct m as [| m]; simpl; [reflexivity | now rewrite IH].
    + apply IH.
Qed.

Lemma suffix_lower name : suffix (lower name) = lower (suffix name).
Proof.
  unfold suffix, len, slice_from. rewrite rfind_lower, length_lower.
  destruct ((0 <? rfind "."%char name)
            && (rfind "."%char name <? Z.of_nat (String.length name) - 1))%bool;
    [| reflexivity].
  symmetry. apply lower_substring.
Qed.

Lemma lower_is_not_upper s ext :
  lower ext <> ext -> (lower s =? ext)%string = false.
Proof.
  intros Hne. apply String.eqb_neq. intros E. apply Hne.
  rewrite <- E. apply lower_idem.
Qed.

Lemma lower_extension_match s :
  mem_string (lower s) image_extensions = mem_string (lower s) lower_extensions.
Proof.
  unfold mem_string, image_extensions, lower_extensions. cbn [existsb].
  rewrite !(lower_is_not_upper s ".JPG"), !(lower_is_not_upper s ".JPEG"),
    !(lower_is_not_upper s ".PNG") by discriminate.
  now rewrite !orb_false_r.
Qed.

Lemma substring_app_l a b : substring 0 (String.length a) (a ++ b) = a.
Proof.
  induction a as [| c a IH]; simpl.
  - destruct b; reflexivity.
  - now rewrite IH.
Qed.

Lemma stem_app_webp st : st <> "" -> stem (st ++ ".webp") = st.
Proof.
  intros Hst. unfold stem. rewrite suffix_app_webp.
  replace (st =? "")%string with false by (symmetry; now apply String.eqb_neq).
  unfold len, slice_to. rewrite string_length_app.
  replace (Z.to_nat (Z.of_nat (String.length st + String.length ".webp")
                     - Z.of_nat (String.length ".webp")))
    with (String.length st) by lia.
  apply substring_app_l.
Qed.

Lemma is_image_file_lower name :
  is_image_file name = mem_string (lower (suffix name)) lower_extensions.
Proof.
  unfold is_image_file. fold (has_image_extension name).
  destruct (endswith name ".webp") eqn:E.
  - rewrite (webp_has_no_image_extension name E).
    rewrite <- lower_extension_match. symmetry.
    apply (webp_has_no_image_extension name E).
  - rewrite andb_true_r. apply lower_extension_match.
Qed.

Lemma candidate_has_suffix name :
  is_image_file name = true -> suffix name <> "".
Proof.
  unfold is_image_file. intros H E. rewrite E in H. discriminate H.
Qed.

Lemma webp_of_candidate name :
  is_image_file name = true -> webp_of name = (stem name ++ ".webp")%string.
Proof.
  intros H. apply candidate_has_suffix in H. unfold webp_of, with_suffix, stem.
  replace (suffix name =? "")%string with false
    by (symmetry; now apply String.eqb_neq).
  reflexivity.
Qed.

End NameFacts.

(** X1.  The extension test ignores case, and only the three lower-case
    entries of [image_extensions] matter: a name is a candidate exactly
    when its lower-cased suffix is [.jpg], [.jpeg] or [.png], and exactly
    when its lower-cased form is a candidate. *)
Theorem extension_match_ignores_case :
  forall name : string,
    is_image_file name = mem_string (lower (suffix name)) lower_extensions
    /\ is_image_file (lower name) = is_image_file name.
Proof.
  intros name. split; [apply is_image_file_lower |].
  now rewrite !is_image_file_lower, suffix_lower, lower_idem.
Qed.

(** X2.  The candidates are the names made of a non-empty stem and one of
    the image extensions in any case: a name that is only an extension,
    such as [.jpg], is none. *)
Theorem candidate_iff_stem_and_extension :
  forall name : string,
    is_image_file name = true
    <-> exists st ext,
          name = (st ++ ext)%string /\ st <> ""
          /\ mem_string (lower ext) lower_extensions = true.
Proof.
  intros name. split.
  - intros H. exists (stem name), (suffix name).
    split; [apply stem_suffix |]. split.
    + apply stem_nonempty. now apply candidate_has_suffix.
    + unfold is_image_file in H. apply andb_true_iff in H. destruct H as [H _].
      now rewrite lower_extension_match in H.
  - intros (st & ext & -> & Hst & Hext).
    unfold is_image_file. rewrite (suffix_of_image_name st ext Hst Hext).
    rewrite lower_extension_match, Hext. cbn [andb]. apply negb_true_iff.
    destruct (endswith (st ++ ext) ".webp") eqn:E; [| reflexivity].
    apply webp_has_no_image_extension in E. unfold has_image_extension in E.
    rewrite (suffix_of_image_name st ext Hst Hext), lower_extension_match, Hext in E.
    discriminate E.
Qed.

(** X3.  The output of a candidate is its stem followed by [.webp]: only
    the last extension is replaced.  The output has the same stem, the
    suffix [.webp], and is never a candidate itself; two candidates are
    written to the same output exactly when they have the same stem. *)
Theorem output_name_of_candidate :
  forall f1 f2 : string,
    is_image_file f1 = true -> is_image_file f2 = true ->
    webp_of f1 = (stem f1 ++ ".webp")%string
    /\ stem (webp_of f1) = stem f1
    /\ suffix (webp_of f1) = ".webp"
    /\ is_image_file (webp_of f1) = false
    /\ (webp_of f1 = webp_of f2 <-> stem f1 = stem f2).
Proof.
  intros f1 f2 H1 H2.
  pose proof (stem_nonempty f1 (candidate_has_suffix f1 H1)) as Hst.
  rewrite (webp_of_candidate f1 H1), (webp_of_candidate f2 H2).
  split; [reflexivity |]. split; [now apply stem_app_webp |]. split.
  - rewrite suffix_app_webp.
    replace (stem f1 =? "")%string with false
      by (symmetry; now apply String.eqb_neq).
    reflexivity.
  - split.
    + unfold is_image_file. rewrite endswith_app. apply andb_false_r.
    + split; [apply string_app_inv_tail | now intros ->].
Qed.

Lemma output_name_of_candidate_witness :
  webp_of "a.b.JPG" = (stem "a.b.JPG" ++ ".webp")%string
  /\ stem (webp_of "a.b.JPG") = stem "a.b.JPG"
  /\ suffix (webp_of "a.b.JPG") = ".webp"
  /\ is_image_file (webp_of "a.b.JPG") = false
  /\ (webp_of "a.b.JPG" = webp_of "a.b.png" <-> stem "a.b.JPG" = stem "a.b.png").
Proof.
  apply (output_name_of_candidate "a.b.JPG" "a.b.png"); reflexivity.
Defined.

(** ** The transform *)

(** X4.  Whatever the input, the image that [optimize_image] hands to the
    encoder is in mode RGB and no wider than [max_width]. *)
Theorem encoded_image_is_rgb_and_fits :
  forall (codec : Codec) (input_path : string) (max_width : Z) (w w1 : world)
         (img : image),
    prepare input_path max_width w = (w1, Returned img) ->
    mode img = "RGB" /\ width img <= max_width.
Proof.
  intros codec input_path max_width w w1 img. rewrite prepare_unfold.
  destruct (find_file input_path w) as [f |]; [| discriminate].
  destruct (decode (contents f)) as [original | kind msg]; [| discriminate].
  destruct (normalize original) as [nimg | kind msg] eqn:Hn; [| discriminate].
  pose proof (normalize_mode _ _ Hn) as Hmode.
  destruct (Z.gtb_spec (width nimg) max_width) as [Hgt | Hle].
  - destruct (new_height_of (width nimg) (height nimg) max_width) as [err | nh];
      [discriminate |].
    destruct (resize nimg (max_width, nh)) as [img' | kind msg] eqn:Hr; [| discriminate].
    intros [= _ <-]. split.
    + rewrite (resize_mode _ _ _ Hr). exact Hmode.
    + pose proof (resize_size _ _ _ Hr) as Hs. injection Hs as Hw _. lia.
  - intros [= _ <-]. split; assumption.
Qed.

Lemma encoded_image_is_rgb_and_fits_witness :
  mode fitted_sample = "RGB" /\ width fitted_sample <= 2.
Proof.
  apply (encoded_image_is_rgb_and_fits RawCodec "a.jpg" 2 sample_world
           (fst (@prepare RawCodec "a.jpg" 2 sample_world)) fitted_sample).
  vm_compute. reflexivity.
Defined.

(** X5.  [optimize_image] returns [True] exactly when the original is
    there and decodes, every stage up to the encoder succeeds and the
    original has at least one byte; the output then holds the bytes of the
    encoder, stamped with the time of the call, and the last line shows the
    two sizes. *)
Theorem transform_succeeds_iff :
  forall (codec : Codec) (input_path output_path : string) (max_width quality : Z)
         (w w' : world),
    input_path <> output_path ->
    (optimize_image input_path output_path max_width quality w = (w', Returned true)
     <-> exists w1 img data d f,
           prepare input_path max_width w = (w1, Returned img)
           /\ encode_webp img quality 6 = Ok data
           /\ photos w1 = Some d
           /\ find_file input_path w = Some f
           /\ contents f <> []
           /\ w' = log (Sizes (Z.of_nat (List.length (contents f)))
                              (Z.of_nat (List.length data)))
                       (log (Created output_path) (saved output_path data d w1))
           /\ find_file output_path w'
              = Some {| contents := data; st_mtime := clock w |}).
Proof.
  intros codec input_path output_path max_width quality w w' Hne.
  rewrite optimize_image_unfold.
  destruct (prepare input_path max_width w) as [w1 [img | [kind msg | kind]]] eqn:Hprep.
  - destruct (prepared_photos _ _ _ _ _ Hprep) as (d & f & Hd & Hd1 & Hc & Hf).
    rewrite Hd1.
    destruct (encode_webp img quality 6) as [data | kind msg] eqn:He.
    + cbv zeta.
      rewrite (find_file_after_save _ _ data d w w1 f Hne Hd Hd1 Hf).
      rewrite find_file_saved_same. cbn [contents].
      destruct (Z.of_nat (List.length (contents f)) =? 0) eqn:Hz.
      * apply length_zero_iff in Hz. split; [discriminate |].
        intros (w1' & img' & data' & d' & f' & _ & _ & _ & Hf' & Hne' & _).
        rewrite Hf in Hf'. injection Hf' as <-. contradiction.
      * split.
        -- intros [= <-]. exists w1, img, data, d, f.
           split; [reflexivity |]. split; [exact He |]. split; [exact Hd1 |].
           split; [exact Hf |]. split.
           ++ intros E. apply length_zero_iff in E. congruence.
           ++ split; [reflexivity |].
              rewrite !find_file_log, find_file_saved_same. now rewrite Hc.
        -- intros (w1' & img' & data' & d' & f' & Hp' & He' & Hd' & Hf' & _ & Hw' & _).
           injection Hp' as <- <-. rewrite He in He'. injection He' as <-.
           rewrite Hd1 in Hd'. injection Hd' as <-.
           rewrite Hf in Hf'. injection Hf' as <-. now rewrite Hw'.
    + split; [discriminate |].
      intros (w1' & img' & data' & d' & f' & Hp' & He' & _).
      injection Hp' as <- <-. rewrite He in He'. discriminate He'.
  - split; [discriminate |].
    intros (w1' & img' & data' & d' & f' & Hp' & _). discriminate Hp'.
  - split; [discriminate |].
    intros (w1' & img' & data' & d' & f' & Hp' & _). discriminate Hp'.
Qed.

Lemma transform_succeeds_iff_witness :
  @optimize_image RawCodec "b.png" "b.webp" 3000 92 sample_world
  = (log (Sizes 11 3)
       (log (Created "b.webp")
          (saved "b.webp" [Byte.x00; Byte.x02; Byte.x01] sample_dir
             (log (NoResize "b.png" (2, 1)) sample_world))),
     Returned true).
Proof.
  apply (proj2 (transform_succeeds_iff RawCodec "b.png" "b.webp" 3000 92 sample_world
                  _ ltac:(discriminate))).
  exists (log (NoResize "b.png" (2, 1)) sample_world),
         (over_white {| mode := "RGBA"; width := 2; height := 1;
                        getpixel := fun x y =>
                          firstn (Z.to_nat 4)
                            (skipn (Z.to_nat ((y * 2 + x) * 4))
                               (map byte_val
                                  (map byte_of [9; 9; 9; 0; 10; 20; 30; 255]))) |}),
         [Byte.x00; Byte.x02; Byte.x01], sample_dir,
         (raw_file [1; 2; 1;  9; 9; 9; 0;  10; 20; 30; 255] 5).
  split; [reflexivity |]. split; [reflexivity |]. split; [reflexivity |].
  split; [reflexivity |]. split; [discriminate |]. split; reflexivity.
Defined.

(** X6.  A call of [optimize_image] that returns [False] leaves every
    file but the output as it was, and the output too, with the clock,
    but for two cases: the encoder failed on an output that was there
    before, which is then empty and stamped anew; or the save succeeded
    and the original has no byte. *)
Theorem failed_transform_changes_only_the_output :
  forall (codec : Codec) (input_path output_path : string) (max_width quality : Z)
         (w w' : world),
    input_path <> output_path ->
    optimize_image input_path output_path max_width quality w = (w', Returned false) ->
    (forall name, name <> output_path -> find_file name w' = find_file name w)
    /\ ((photos w' = photos w /\ clock w' = clock w)
        \/ (exists w1 img kind msg fo,
               prepare input_path max_width w = (w1, Returned img)
               /\ encode_webp img quality 6 = Fail kind msg
               /\ find_file output_path w = Some fo
               /\ find_file output_path w'
                  = Some {| contents := []; st_mtime := clock w |})
        \/ (exists f, find_file input_path w = Some f /\ contents f = []
                      /\ find_file output_path w' <> None)).
Proof.
  intros codec input_path output_path max_width quality w w' Hne Hrun. split.
  - destruct (optimize_image_outcome input_path output_path max_width quality w)
      as (w2 & b & evs & Ho & _ & _ & _ & _ & _ & _ & (_ & Hother & _) & _).
    rewrite Hrun in Ho. injection Ho as <- _. exact Hother.
  - revert Hrun. rewrite optimize_image_unfold.
    destruct (prepare input_path max_width w) as [w1 [img | [kind msg | kind]]] eqn:Hprep.
    + destruct (prepared_photos _ _ _ _ _ Hprep) as (d & f & Hd & Hd1 & Hc & Hf).
      assert (Hsame : forall name, find_file name w1 = find_file name w)
        by (intros name; unfold find_file; now rewrite Hd, Hd1).
      rewrite Hd1.
      destruct (encode_webp img quality 6) as [data | kind msg] eqn:He.
      * cbv zeta.
        rewrite (find_file_after_save _ _ data d w w1 f Hne Hd Hd1 Hf).
        rewrite find_file_saved_same. cbn [contents].
        destruct (Z.of_nat (List.length (contents f)) =? 0) eqn:Hz; [| discriminate].
        apply length_zero_iff in Hz. intros [= <-]. right. right. exists f.
        split; [exact Hf |]. split; [exact Hz |].
        rewrite find_file_log, find_file_saved_same. discriminate.
      * intros [= <-]. destruct (find_file output_path w) as [fo |] eqn:Hfo.
        -- right. left. exists w1, img, kind, msg, fo.
           split; [reflexivity |]. split; [exact He |]. split; [reflexivity |].
           rewrite find_file_log, (find_file_spoiled_same _ _ _ Hd1), Hsame, Hfo, Hc.
           reflexivity.
        -- left. unfold spoiled.
           replace (lookup output_path d) with (@None file)
             by (unfold find_file in Hfo; now rewrite Hd in Hfo).
           cbn [log photos clock]. split; congruence.
    + destruct (prepare_outcome _ _ _ _ _ Hprep) as (Hp & Hc & _).
      intros [= <-]. left. cbn [log photos clock]. now split.
    + discriminate.
Qed.

Lemma failed_transform_changes_only_the_output_witness :
  (forall name, name <> "tall.webp" ->
     find_file name (fst (@optimize_image RawCodec "tall.png" "tall.webp" 3000 92
                            tall_world))
     = find_file name tall_world)
  /\ find_file "tall.webp"
       (fst (@optimize_image RawCodec "tall.png" "tall.webp" 3000 92 tall_world))
     = Some {| contents := []; st_mtime := 100 |}.
Proof.
  destruct (failed_transform_changes_only_the_output RawCodec "tall.png" "tall.webp"
              3000 92 tall_world
              (fst (@optimize_image RawCodec "tall.png" "tall.webp" 3000 92 tall_world))
              ltac:(discriminate) ltac:(reflexivity)) as [Hother _].
  split; [exact Hother | reflexivity].
Defined.

(** X7.  Fitting to a smaller width never asks for a taller image: the
    height requested from the library lies between 0 and the original
    height less one, and it is 0 for a strip so wide that
    [height * max_width < width].  If the library refuses that empty size,
    [optimize_image] reports the failure and returns [False]. *)
Theorem requested_height_is_below_the_original :
  forall (codec : Codec) (input_path output_path : string) (max_width quality : Z)
         (w : world) (f : file) (original img : image),
    find_file input_path w = Some f ->
    decode (contents f) = Ok original ->
    normalize original = Ok img ->
    0 < max_width -> max_width < width original -> 0 < height original ->
    width original <= 2 ^ 1022 -> height original * max_width <= 2 ^ 51 ->
    (exists new_height,
        new_height_of (width original) (height original) max_width = inr new_height
        /\ 0 <= new_height < height original
        /\ (height original * max_width < width original -> new_height = 0))
    /\ (height original * max_width < width original ->
        forall kind msg,
          resize img (max_width, 0) = Fail kind msg ->
          optimize_image input_path output_path max_width quality w
          = (log (Error input_path msg) w, Returned false)).
Proof.
  intros codec input_path output_path max_width quality w f original img
         Hf Hd Hn Hmw Hgt Hh Hwmax Hbound.
  destruct (new_height_of_spec (width original) (height original) max_width
              Hmw Hgt Hwmax Hh Hbound) as (nh & Hnh & Hfl1 & Hfl2).
  set (q := height original * max_width) in *.
  assert (Hq : 0 < q) by (unfold q; nia).
  assert (Hqw : q / width original < height original).
  { apply Z.div_lt_upper_bound; [lia | unfold q; nia]. }
  assert (Hq0 : 0 <= q / width original) by (apply Z.div_pos; lia).
  assert (Hstrip : q < width original -> nh = 0).
  { intros Hs. assert (Hm : q mod width original = q) by (apply Z.mod_small; lia).
    rewrite Hfl1 by lia. apply Z.div_small. lia. }
  split.
  - exists nh. split; [exact Hnh |]. split; [| exact Hstrip].
    destruct (Z.eq_dec (q mod width original) 0) as [Hz | Hnz].
    + assert (H1 : 1 <= q / width original).
      { pose proof (Z.div_mod q (width original) ltac:(lia)) as Hdm.
        rewrite Hz, Z.add_0_r in Hdm.
        destruct (Z_lt_ge_dec (q / width original) 1) as [Hlt |]; [| lia]. nia. }
      destruct (Hfl2 Hz) as [-> | ->]; lia.
    + rewrite (Hfl1 Hnz). lia.
  - intros Hs kind msg Hr.
    pose proof (normalize_size original img Hn) as Hsz.
    assert (Hwi : width img = width original) by (now injection Hsz).
    assert (Hhi : height img = height original) by (now injection Hsz).
    rewrite optimize_image_unfold, prepare_unfold, Hf, Hd, Hn, Hwi, Hhi.
    destruct (Z.gtb_spec (width original) max_width) as [_ | Hle]; [| lia].
    rewrite Hnh, (Hstrip Hs), Hr. reflexivity.
Qed.

Lemma requested_height_is_below_the_original_witness :
  @new_height_of 2 1 1 = inr 0
  /\ @optimize_image RawCodec "b.png" "b.webp" 1 92 sample_world
     = (log (Error "b.png" "height and width must be > 0") sample_world,
        Returned false).
Proof.
  pose proof (requested_height_is_below_the_original RawCodec "b.png" "b.webp" 1 92
                sample_world _ _ _ eq_refl eq_refl eq_refl
                ltac:(reflexivity) ltac:(reflexivity) ltac:(reflexivity)
                ltac:(vm_compute; discriminate) ltac:(vm_compute; discriminate))
    as [(nh & Hnh & _ & Hzero) Hfail].
  split.
  - rewrite <- (Hzero ltac:(reflexivity)). exact Hnh.
  - apply (Hfail ltac:(reflexivity) "ValueError"). reflexivity.
Defined.

(** ** The batch *)

Section BatchFacts.
Context {codec : Codec}.

Lemma image_files_write name f d :
  is_image_file name = false -> image_files (write name f d) = image_files d.
Proof.
  intros Hn. unfold image_files. induction d as [| [n g] d IH]; simpl.
  - now rewrite Hn.
  - destruct (n =? name)%string; simpl; [reflexivity |].
    destruct (is_image_file n); [f_equal |]; exact IH.
Qed.

(** [optimize_image] on an output that is no candidate keeps the directory
    and its candidates. *)
Lemma optimize_image_candidates input_path output_path max_width quality w w' r d :
  is_image_file output_path = false -> photos w = Some d ->
  optimize_image input_path output_path max_width quality w = (w', r) ->
  exists d', photos w' = Some d' /\ image_files d' = image_files d.
Proof.
  intros Ho Hd. rewrite optimize_image_unfold.
  destruct (prepare input_path max_width w) as [w1 r1] eqn:Hprep.
  destruct (prepare_outcome _ _ _ _ _ Hprep) as (Hp & _).
  rewrite Hd in Hp.
  assert (Hkeep : forall e b, (log e w1, @Returned bool b) = (w', r) ->
            exists d', photos w' = Some d' /\ image_files d' = image_files d).
  { intros e b [= <- _]. exists d. now split. }
  assert (Hsave : forall data e b,
            (log e (saved output_path data d w1), @Returned bool b) = (w', r) ->
            exists d', photos w' = Some d' /\ image_files d' = image_files d).
  { intros data e b [= <- _]. eexists. split; [reflexivity |].
    now apply image_files_write. }
  destruct r1 as [img | [kind msg | kind]].
  - rewrite Hp.
    destruct (encode_webp img quality 6) as [data | kind msg].
    2:{ unfold spoiled. destruct (lookup output_path d); [apply Hsave | apply Hkeep]. }
    cbv zeta.
    destruct (find_file input_path (saved output_path data d w1)) as [fi |];
      [| apply Hsave].
    destruct (find_file output_path (saved output_path data d w1)) as [fo |];
      [| apply Hsave].
    destruct (Z.of_nat (List.length (contents fi)) =? 0); [apply Hsave |].
    intros [= <- _]. eexists. split; [reflexivity |]. now apply image_files_write.
  - apply Hkeep.
  - intros [= <- _]. exists d. now split.
Qed.

(** While the world evolves, a candidate of the past keeps its newer
    output. *)
Lemma newer_output_persists f fi w w' :
  evolves w w' -> is_image_file f = true ->
  find_file f w = Some fi -> st_mtime fi < clock w ->
  output_is_newer w f = true -> output_is_newer w' f = true.
Proof.
  intros [Hclk Hev] Hcand Hfi Hpast. unfold output_is_newer. rewrite Hfi.
  destruct (find_file (webp_of f) w) as [fo |] eqn:Hfo; [| discriminate].
  intros Hnew. apply Z.gtb_lt in Hnew.
  assert (Hkept : find_file f w' = Some fi).
  { destruct (Hev f) as [E | (Hw & _)]; [congruence |].
    rewrite (image_file_not_webp f Hcand) in Hw. discriminate. }
  rewrite Hkept.
  destruct (Hev (webp_of f)) as [E | (_ & fo' & Hfo' & Ht)].
  - rewrite E, Hfo. apply Z.gtb_lt. lia.
  - rewrite Hfo'. apply Z.gtb_lt. lia.
Qed.

Lemma candidate_kept f w w' :
  evolves w w' -> is_image_file f = true -> find_file f w' = find_file f w.
Proof.
  intros [_ Hev] Hcand. destruct (Hev f) as [E | (Hw & _)]; [exact E |].
  rewrite (image_file_not_webp f Hcand) in Hw. discriminate.
Qed.

(** What one turn of the loop, ended in [w'] after the lines [evs], settled
    for the candidate [f]. *)
Lemma process_file_settles f fi o s w d :
  photos w = Some d -> is_image_file f = true ->
  find_file f w = Some fi -> st_mtime fi < clock w ->
  exists w' o' s' evs d',
    process_file f (o, s) w = (w', Returned (o', s'))
    /\ console w' = (console w ++ evs)%list
    /\ evolves w w'
    /\ photos w' = Some d' /\ image_files d' = image_files d
    /\ (output_is_newer w' f = true \/ exists msg, In (Error f msg) evs).
Proof.
  intros Hd Hcand Hfi Hpast.
  assert (Hin : find_file f w <> None) by congruence.
  destruct (output_is_newer w f) eqn:Hnew.
  - rewrite (process_file_skip _ _ _ _ Hnew).
    exists (log (Skipping f) w), o, (s + 1), [Skipping f], d.
    split; [reflexivity |]. split; [reflexivity |]. split; [apply evolves_refl_log |].
    split; [exact Hd |]. split; [reflexivity |]. left. exact Hnew.
  - rewrite (process_file_run _ _ _ _ Hin Hnew).
    destruct (optimize_image_outcome f (webp_of f) 3000 92 (log (Processing f) w))
      as (w' & b & evs & Hrun & Hc & _ & _ & _ & _ & Herr & Ht & Hout).
    assert (Hweb : is_image_file (webp_of f) = false).
    { unfold is_image_file, webp_of. rewrite output_endswith_webp. apply andb_false_r. }
    destruct (optimize_image_candidates _ _ _ _ (log (Processing f) w) _ _ d
                Hweb Hd Hrun)
      as (d' & Hd' & Hfiles).
    assert (Hev : evolves w w').
    { apply evolves_trans with (log (Processing f) w); [apply evolves_refl_log |].
      eapply touches_evolves; [apply output_endswith_webp | exact Ht]. }
    rewrite Hrun.
    exists w', (if b then o + 1 else o), s, (Processing f :: evs), d'.
    split; [now destruct b |].
    split; [rewrite Hc; unfold log; cbn [console]; now rewrite <- app_assoc |].
    split; [exact Hev |]. split; [exact Hd' |]. split; [exact Hfiles |].
    destruct b.
    + left. destruct (Hout eq_refl) as (fo & Hfo & Hclk). cbn [log clock] in Hclk.
      unfold output_is_newer. rewrite Hfo, (candidate_kept f w w' Hev Hcand), Hfi.
      apply Z.gtb_lt. lia.
    + right. destruct (Herr eq_refl) as (msg & Hmsg). exists msg. now right.
Qed.

(** After the loop every candidate of the past has a newer output, but for
    the ones it reported an error on; the candidates are the same. *)
Lemma for_each_settles files : forall o s w d,
  photos w = Some d ->
  (forall f, In f files ->
             is_image_file f = true
             /\ exists fi, find_file f w = Some fi /\ st_mtime fi < clock w) ->
  exists w' o' s' evs d',
    for_each files (o, s) w = (w', Returned (o', s'))
    /\ console w' = (console w ++ evs)%list
    /\ evolves w w'
    /\ photos w' = Some d' /\ image_files d' = image_files d
    /\ forall f, In f files ->
                 output_is_newer w' f = true \/ exists msg, In (Error f msg) evs.
Proof.
  induction files as [| f rest IH]; intros o s w d Hd Hall.
  - exists w, o, s, [], d. split; [reflexivity |].
    split; [now rewrite app_nil_r |]. split; [apply evolves_refl |].
    split; [exact Hd |]. split; [reflexivity | intros g []].
  - destruct (Hall f (or_introl eq_refl)) as (Hcand & fi & Hfi & Hpast).
    destruct (process_file_settles f fi o s w d Hd Hcand Hfi Hpast)
      as (w1 & o1 & s1 & evs1 & d1 & Hrun1 & Hc1 & Hev1 & Hd1 & Hf1 & Hset1).
    destruct (IH o1 s1 w1 d1 Hd1) as (w' & o' & s' & evs2 & d' & Hrun2 & Hc2 & Hev2
                                      & Hd' & Hf2 & Hset2).
    { intros g Hg. destruct (Hall g (or_intror Hg)) as (Hcg & gi & Hgi & Hgp).
      split; [exact Hcg |]. exists gi.
      rewrite (candidate_kept g w w1 Hev1 Hcg). split; [exact Hgi |].
      destruct Hev1 as [Hclk _]. lia. }
    exists w', o', s', (evs1 ++ evs2)%list, d'.
    split; [cbn [for_each]; unfold bind; rewrite Hrun1; exact Hrun2 |].
    split; [rewrite Hc2, Hc1; now rewrite app_assoc |].
    split; [now apply evolves_trans with w1 |].
    split; [exact Hd' |]. split; [congruence |].
    intros g [<- | Hg].
    + destruct Hset1 as [Hnew | (msg & Hmsg)].
      * left. apply (newer_output_persists f fi w1 w' Hev2 Hcand);
          [now rewrite (candidate_kept f w w1 Hev1 Hcand)
          | destruct Hev1 as [Hclk _]; lia | exact Hnew].
      * right. exists msg. apply in_or_app. now left.
    + destruct (Hset2 g Hg) as [Hnew | (msg & Hmsg)]; [now left |].
      right. exists msg. apply in_or_app. now right.
Qed.

(** A run over candidates that all have a newer output. *)
Lemma main_all_skip w d :
  photos w = Some d -> image_files d <> [] ->
  (forall f, In f (image_files d) -> output_is_newer w f = true) ->
  main w
  = (logged (Found (Z.of_nat (List.length (image_files d)))
               :: map Skipping (sorted (image_files d))
               ++ [Summary 0 (Z.of_nat (List.length (image_files d)))]) w,
     Returned tt).
Proof.
  intros Hp Hne Hall. rewrite (main_unfold w d Hp).
  change (log (Found (Z.of_nat (List.length (image_files d)))) w)
    with (logged [Found (Z.of_nat (List.length (image_files d)))] w).
  rewrite for_each_all_skip
    by (intros f Hf; apply Hall; now apply (proj1 (sorted_in _ _))).
  rewrite sorted_length. cbn [fst snd]. rewrite log_logged.
  destruct (image_files d); [contradiction |].
  rewrite Z.add_0_l, <- app_assoc. reflexivity.
Qed.

Lemma count_zero_not_in p evs e : count p evs = 0 -> In e evs -> p e = false.
Proof.
  unfold count. intros Hc Hin. destruct (p e) eqn:Hp; [| reflexivity].
  assert (Hf : In e (filter p evs)) by (apply filter_In; now split).
  destruct (filter p evs); [destruct Hf | simpl in Hc; lia].
Qed.

End BatchFacts.

(** X8.  A run keeps the originals: [main] returns with every file whose
    name does not end in [.webp] as it was, bytes and modification time,
    and with no file of the directory removed. *)
Theorem originals_are_kept :
  forall (codec : Codec) (w : world) (d : directory),
    photos w = Some d ->
    exists w',
      main w = (w', Returned tt)
      /\ (forall name, endswith name ".webp" = false ->
                       find_file name w' = find_file name w)
      /\ (forall name, find_file name w <> None -> find_file name w' <> None).
Proof.
  intros codec w d Hp. destruct (image_files d) as [| f0 l] eqn:Hfiles.
  - exists (log NoImagesFound w). rewrite (main_unfold w d Hp), Hfiles.
    split; [reflexivity |]. split; intros name H; now rewrite find_file_log.
  - destruct (main_outcome w d Hp) as (w' & o & s & evs & Hrun & Hl);
      [rewrite Hfiles; discriminate |].
    destruct Hl as (_ & _ & _ & _ & _ & Hev & _).
    exists (log (Summary o s) w'). split; [exact Hrun |]. split.
    + intros name Hn. rewrite find_file_log. destruct Hev as [_ Hev].
      destruct (Hev name) as [E | (Hw & _)]; [now rewrite E | congruence].
    + intros name Hn. rewrite find_file_log.
      apply (evolves_keeps name _ _ Hev). now rewrite find_file_log.
Qed.

Lemma originals_are_kept_witness :
  exists w',
    @main RawCodec sample_world = (w', Returned tt)
    /\ (forall name, endswith name ".webp" = false ->
                     find_file name w' = find_file name sample_world)
    /\ (forall name, find_file name sample_world <> None -> find_file name w' <> None).
Proof.
  apply (originals_are_kept RawCodec sample_world sample_dir). reflexivity.
Defined.

(** X9.  In an existing directory [main] prints its "no images" line and
    stops, without a summary and without touching a file, exactly when no
    entry of the directory is a candidate. *)
Theorem no_candidates_no_work :
  forall (codec : Codec) (w : world) (d : directory),
    photos w = Some d ->
    (main w = (log NoImagesFound w, Returned tt)
     <-> forall name, In name (map fst d) -> is_image_file name = false).
Proof.
  intros codec w d Hp. split.
  - intros Hrun name Hin. destruct (is_image_file name) eqn:Hc; [exfalso | reflexivity].
    assert (Hne : image_files d <> []).
    { intros E. assert (H : In name (image_files d))
        by (unfold image_files; apply filter_In; now split).
      rewrite E in H. destruct H. }
    destruct (main_outcome w d Hp Hne) as (w' & o & s & evs & Hrun' & Hc' & _).
    rewrite Hrun in Hrun'. apply pair_equal_spec in Hrun' as [Hw _].
    apply (f_equal console) in Hw. unfold log in Hw, Hc'; cbn [console] in Hw, Hc'.
    rewrite Hc', <- !app_assoc in Hw. apply app_inv_head in Hw.
    cbn [app] in Hw. discriminate Hw.
  - intros Hnone. rewrite (main_unfold w d Hp).
    assert (E : image_files d = []).
    { unfold image_files. induction (map fst d) as [| n l IH]; [reflexivity |].
      cbn [filter]. rewrite (Hnone n (or_introl eq_refl)).
      apply IH. intros name H. apply Hnone. now right. }
    now rewrite E.
Qed.

Lemma no_candidates_no_work_witness :
  @main RawCodec no_image_world = (log NoImagesFound no_image_world, Returned tt).
Proof.
  apply (proj2 (no_candidates_no_work RawCodec no_image_world _ eq_refl)).
  intros name [<- | [<- | [<- | []]]]; reflexivity.
Defined.

(** X10.  Two candidates of one stem share their output: once the loop has
    converted the first, it skips the second, if that one was last modified
    before the run, so the second picture is never converted. *)
Theorem same_stem_candidate_is_skipped :
  forall (codec : Codec) (f1 f2 : string) (o s : Z) (w w1 : world) (fi2 : file),
    webp_of f1 = webp_of f2 ->
    is_image_file f2 = true ->
    find_file f2 w = Some fi2 -> st_mtime fi2 < clock w ->
    process_file f1 (o, s) w = (w1, Returned (o + 1, s)) ->
    process_file f2 (o + 1, s) w1 = (log (Skipping f2) w1, Returned (o + 1, s + 1)).
Proof.
  intros codec f1 f2 o s w w1 fi2 Hsame Hcand Hfi Hpast Hrun.
  assert (Hconv : optimize_image f1 (webp_of f1) 3000 92 (log (Processing f1) w)
                  = (w1, Returned true)).
  { rewrite process_file_unfold in Hrun. cbv zeta in Hrun.
    destruct (optimize_image_outcome f1 (webp_of f1) 3000 92 (log (Processing f1) w))
      as (w' & b & evs & Ho & _).
    rewrite Ho in Hrun |- *.
    destruct b;
      (destruct (find_file (webp_of f1) w) as [fo |];
       [destruct (find_file f1 w) as [fi |];
        [destruct (st_mtime fo >? st_mtime fi) |] |]);
      apply pair_equal_spec in Hrun as [Hw Hr];
      try discriminate Hr; try (injection Hr; intros; lia);
      subst; reflexivity. }
  destruct (optimize_image_outcome f1 (webp_of f1) 3000 92 (log (Processing f1) w))
    as (w' & b & evs & Ho & _ & _ & _ & _ & _ & _ & Ht & Hout).
  rewrite Hconv in Ho. injection Ho as <- <-.
  destruct (Hout eq_refl) as (fo & Hfo & Hclk). cbn [log clock] in Hclk.
  destruct Ht as (_ & Hother & _).
  apply process_file_skip. unfold output_is_newer.
  rewrite <- Hsame, Hfo, Hother, find_file_log, Hfi.
  - apply Z.gtb_lt. lia.
  - intros E. pose proof (image_file_not_webp f2 Hcand) as Hn.
    rewrite E in Hn. unfold webp_of in Hn. rewrite output_endswith_webp in Hn.
    discriminate Hn.
Qed.

Lemma same_stem_candidate_is_skipped_witness :
  @process_file RawCodec "a.png" (0 + 1, 0)
     (fst (@process_file RawCodec "a.jpg" (0, 0) twin_world))
  = (log (Skipping "a.png") (fst (@process_file RawCodec "a.jpg" (0, 0) twin_world)),
     Returned (0 + 1, 0 + 1)).
Proof.
  apply (same_stem_candidate_is_skipped RawCodec "a.jpg" "a.png" 0 0 twin_world _
           (raw_file [1; 1; 1;  9; 9; 9; 0] 5)).
  - reflexivity.
  - reflexivity.
  - reflexivity.
  - reflexivity.
  - vm_compute. reflexivity.
Defined.

(** X11.  After a run over candidates that were all last modified before
    it, the candidates are the same and each of them has a newer output,
    but for the ones the run printed an error on.  So a second run right
    after a run without errors converts nothing: it skips every
    candidate. *)
Theorem next_run_skips_what_succeeded :
  forall (codec : Codec) (w : world) (d : directory),
    photos w = Some d -> image_files d <> [] ->
    (forall f fi, In f (image_files d) -> find_file f w = Some fi ->
                  st_mtime fi < clock w) ->
    exists w' d',
      main w = (w', Returned tt)
      /\ photos w' = Some d' /\ image_files d' = image_files d
      /\ (forall f, In f (image_files d) ->
                    output_is_newer w' f = true
                    \/ exists msg, In (Error f msg) (run_events w w'))
      /\ (count is_error (run_events w w') = 0 ->
          main w'
          = (logged (Found (Z.of_nat (List.length (image_files d)))
                       :: map Skipping (sorted (image_files d))
                       ++ [Summary 0 (Z.of_nat (List.length (image_files d)))]) w',
             Returned tt)).
Proof.
  intros codec w d Hp Hne Hpast.
  set (n := Z.of_nat (List.length (image_files d))).
  destruct (for_each_settles (sorted (image_files d)) 0 0 (log (Found n) w) d Hp)
    as (w' & o & s & evs & d' & Hrun & Hc & Hev & Hd' & Hfiles & Hset).
  { intros f Hf. apply (proj1 (sorted_in _ _)) in Hf.
    assert (Hf' := Hf). unfold image_files in Hf'. apply filter_In in Hf'.
    destruct Hf' as [Hlisted Hcand]. split; [exact Hcand |].
    rewrite find_file_log.
    destruct (find_file f w) as [fi |] eqn:Hfi.
    - exists fi. split; [reflexivity |]. cbn [log clock]. now apply (Hpast f fi).
    - exfalso. unfold find_file in Hfi. rewrite Hp in Hfi.
      now apply (lookup_listed f d Hlisted). }
  assert (Hmain : main w = (log (Summary o s) w', Returned tt)).
  { rewrite (main_unfold w d Hp). fold n. rewrite Hrun.
    destruct (image_files d); [contradiction | reflexivity]. }
  assert (Hevents : run_events w (log (Summary o s) w')
                    = (Found n :: evs ++ [Summary o s])%list).
  { apply run_events_app. unfold log in *; cbn [console] in *.
    rewrite Hc, <- !app_assoc. reflexivity. }
  assert (Hsettled : forall f, In f (image_files d) ->
            output_is_newer (log (Summary o s) w') f = true
            \/ exists msg, In (Error f msg) (run_events w (log (Summary o s) w'))).
  { intros f Hf. rewrite Hevents.
    destruct (Hset f (proj2 (sorted_in f _) Hf)) as [Hnew | (msg & Hmsg)].
    - left. exact Hnew.
    - right. exists msg. right. apply in_or_app. now left. }
  exists (log (Summary o s) w'), d'.
  split; [exact Hmain |]. split; [exact Hd' |]. split; [exact Hfiles |].
  split; [exact Hsettled |].
  intros Hnoerr. subst n. rewrite <- Hfiles. apply main_all_skip.
  - exact Hd'.
  - now rewrite Hfiles.
  - rewrite Hfiles. intros f Hf.
    destruct (Hsettled f Hf) as [Hnew | (msg & Hmsg)]; [exact Hnew |].
    pose proof (count_zero_not_in _ _ _ Hnoerr Hmsg) as H. discriminate H.
Qed.

Lemma next_run_skips_what_succeeded_witness :
  exists w' d',
    @main RawCodec twin_world = (w', Returned tt)
    /\ photos w' = Some d' /\ image_files d' = ["a.png"; "a.jpg"]
    /\ (forall f, In f ["a.png"; "a.jpg"] ->
                  output_is_newer w' f = true
                  \/ exists msg, In (Error f msg) (run_events twin_world w'))
    /\ (count is_error (run_events twin_world w') = 0 ->
        @main RawCodec w'
        = (logged (Found 2 :: map Skipping (sorted ["a.png"; "a.jpg"])
                     ++ [Summary 0 2]) w',
           Returned tt)).
Proof.
  apply (next_run_skips_what_succeeded RawCodec twin_world
           [ ("a.png", raw_file [1; 1; 1;  9; 9; 9; 0] 5);
             ("a.jpg", raw_file [0; 1; 1;  7; 7; 7] 3) ]).
  - reflexivity.
  - discriminate.
  - intros f fi [<- | [<- | []]] [= <-]; reflexivity.
Defined.

Section BlendFacts.

Lemma byte_values_in a : 0 <= a <= 255 -> In a byte_values.
Proof.
  intros H. unfold byte_values. rewrite <- (Z2Nat.id a) by lia.
  apply in_map, in_seq. lia.
Qed.

Lemma forallb_bytes (p : Z -> bool) :
  forallb p byte_values = true -> forall a, 0 <= a <= 255 -> p a = true.
Proof.
  intros H a Ha. rewrite forallb_forall in H. apply H, byte_values_in, Ha.
Qed.

(** Every mask and every byte, one by one. *)
Lemma blend_table_holds :
  forallb (fun a => forallb (blend_over_white_in_range a) byte_values) byte_values
  = true.
Proof. vm_compute. reflexivity. Qed.

Lemma blend_over_white a s :
  0 <= a <= 255 -> 0 <= s <= 255 ->
  s <= blend8 a 255 s <= 255 /\ (a = 255 -> blend8 a 255 s = s).
Proof.
  intros Ha Hs.
  pose proof (forallb_bytes _ (forallb_bytes _ blend_table_holds a Ha) s Hs) as H.
  unfold blend_over_white_in_range in H.
  apply andb_true_iff in H. destruct H as [H Hfull].
  apply andb_true_iff in H. destruct H as [Hlo Hhi].
  apply Z.leb_le in Hlo, Hhi. split; [lia |].
  intros E. subst a. rewrite Z.eqb_refl in Hfull. now apply Z.eqb_eq.
Qed.

End BlendFacts.

(** X12.  Flattening on white never darkens a pixel: each band of the
    result is a byte between the band of the source and 255, whatever the
    alpha, and a fully opaque pixel keeps its colour. *)
Theorem flattening_never_darkens :
  forall (src : image) (x y : Z),
    inside src x y = true ->
    0 <= last (getpixel src x y) 0 <= 255 ->
    Forall (fun c => 0 <= c <= 255) (rgb_bytes (mode src) (getpixel src x y)) ->
    Forall2 (fun s r => s <= r <= 255)
            (rgb_bytes (mode src) (getpixel src x y))
            (getpixel (over_white src) x y)
    /\ (last (getpixel src x y) 0 = 255 ->
        getpixel (over_white src) x y = rgb_bytes (mode src) (getpixel src x y)).
Proof.
  intros src x y Hin Ha Hbytes. unfold over_white; cbn [getpixel]. rewrite Hin.
  set (a := last (getpixel src x y) 0) in *.
  assert (Hshape : exists c0 c1 c2,
             rgb_bytes (mode src) (getpixel src x y) = [c0; c1; c2]).
  { unfold rgb_bytes. destruct (mode src =? "LA")%string; eauto. }
  destruct Hshape as (c0 & c1 & c2 & E). rewrite E in *. cbn [blend_bands].
  inversion Hbytes as [| ? ? H0 Hb1]; subst.
  inversion Hb1 as [| ? ? H1 Hb2]; subst.
  inversion Hb2 as [| ? ? H2 _]; subst.
  destruct (blend_over_white a c0 Ha H0) as [B0 F0].
  destruct (blend_over_white a c1 Ha H1) as [B1 F1].
  destruct (blend_over_white a c2 Ha H2) as [B2 F2].
  split.
  - apply Forall2_cons; [exact B0 |]. apply Forall2_cons; [exact B1 |].
    apply Forall2_cons; [exact B2 | apply Forall2_nil].
  - intros Hfull. now rewrite (F0 Hfull), (F1 Hfull), (F2 Hfull).
Qed.

Lemma flattening_never_darkens_witness :
  Forall2 (fun s r => s <= r <= 255)
          (rgb_bytes (mode sample_rgba) (getpixel sample_rgba 1 0))
          (getpixel (over_white sample_rgba) 1 0)
  /\ (last (getpixel sample_rgba 1 0) 0 = 255 ->
      getpixel (over_white sample_rgba) 1 0
      = rgb_bytes (mode sample_rgba) (getpixel sample_rgba 1 0)).
Proof.
  apply (flattening_never_darkens sample_rgba 1 0).
  - reflexivity.
  - simpl. lia.
  - unfold rgb_bytes. simpl. apply Forall_cons; [lia |]. apply Forall_cons; [lia |].
    apply Forall_cons; [lia | apply Forall_nil].
Defined.


